(** * images: a shallow embedding of the image-hosting server (app.ts)

    The server lists the image files of a storage directory newest first,
    serves them in pages of twenty, and offers three operations behind HTTP
    Basic authentication: upload, delete and fetch-from-URL.  This file
    embeds the route handlers and the helpers they call, and proves the
    properties the specification states about them.

    Conventions of the embedding:
    - a JavaScript string is the list of its UTF-16 code units;
    - a JavaScript number is an exact integer or NaN (every number the
      handlers compute is an integer; exactness is faithful inside the safe
      integer range);
    - the file system is an explicit state threaded through the handlers;
    - a thrown exception is the [Err] case of a result type;
    - values that come from the environment (the clock, the uuid generator,
      the remote server, the third-party libraries) are arguments. *)

From Stdlib Require Import String Ascii.
From Stdlib Require Import ZArith NArith List Bool Lia.
From Stdlib Require Import Permutation Sorted.
Import ListNotations.
Local Open Scope Z_scope.

(* ================================================================== *)
(** * Strings *)
(* ================================================================== *)

Definition jsstring := list N.

(** A string literal of the source (ASCII only). *)
Definition lit (s : string) : jsstring :=
  map N_of_ascii (list_ascii_of_string s).

Fixpoint list_eqb {A : Type} (eqb : A -> A -> bool) (l1 l2 : list A) : bool :=
  match l1, l2 with
  | [], [] => true
  | x :: t1, y :: t2 => eqb x y && list_eqb eqb t1 t2
  | _, _ => false
  end.

(** [a === b] on strings. *)
Definition str_eqb : jsstring -> jsstring -> bool := list_eqb N.eqb.

(** [s.startsWith(p)] *)
Fixpoint startsWith (s p : jsstring) : bool :=
  match p, s with
  | [], _ => true
  | c :: p', d :: s' => N.eqb c d && startsWith s' p'
  | _ :: _, [] => false
  end.

(** [s.endsWith(p)] *)
Definition endsWith (s p : jsstring) : bool := startsWith (rev s) (rev p).

(** [s.split(sep)] for a one-character separator: never empty. *)
Fixpoint split (sep : N) (s : jsstring) : list jsstring :=
  match s with
  | [] => [[]]
  | c :: t =>
      if N.eqb c sep then [] :: split sep t
      else match split sep t with
           | seg :: segs => (c :: seg) :: segs
           | [] => [[c]]
           end
  end.

Definition char_dot : N := 46%N.
Definition char_slash : N := 47%N.
Definition char_quote : N := 34%N.

(** Canonicalisation of the [i] flag (no [u] flag): only the ASCII letters
    A-Z fold onto the ASCII letters a-z. *)
Definition ascii_lower (c : N) : N :=
  if (N.leb 65 c && N.leb c 90)%N then (c + 32)%N else c.

Definition lower (s : jsstring) : jsstring := map ascii_lower s.

(** LineTerminator: LF, CR, LS, PS; the characters [.] does not match. *)
Definition is_line_terminator (c : N) : bool :=
  existsb (N.eqb c) [10; 13; 8232; 8233]%N.

(* ================================================================== *)
(** * Numbers *)
(* ================================================================== *)

Inductive number := Num (z : Z) | NaN.

Definition num_add (a b : number) : number :=
  match a, b with Num x, Num y => Num (x + y) | _, _ => NaN end.
Definition num_sub (a b : number) : number :=
  match a, b with Num x, Num y => Num (x - y) | _, _ => NaN end.
Definition num_mul (a b : number) : number :=
  match a, b with Num x, Num y => Num (x * y) | _, _ => NaN end.

Definition ToIntegerOrInfinity (n : number) : Z :=
  match n with Num z => z | NaN => 0 end.

(** StrWhiteSpaceChar: WhiteSpace and LineTerminator. *)
Definition StrWhiteSpaceChar (c : N) : bool :=
  existsb (N.eqb c)
    [9; 10; 11; 12; 13; 32; 160; 5760; 8192; 8193; 8194; 8195; 8196; 8197;
     8198; 8199; 8200; 8201; 8202; 8232; 8233; 8239; 8287; 12288; 65279]%N.

Fixpoint trimStart (s : jsstring) : jsstring :=
  match s with
  | c :: t => if StrWhiteSpaceChar c then trimStart t else s
  | [] => []
  end.

Definition digit_value (c : N) : option Z :=
  if (N.leb 48 c && N.leb c 57)%N then Some (Z.of_N c - 48)
  else if (N.leb 97 c && N.leb c 122)%N then Some (Z.of_N c - 87)
  else if (N.leb 65 c && N.leb c 90)%N then Some (Z.of_N c - 55)
  else None.

(** The value of the longest prefix of radix-[R] digits; [acc] is [None]
    until a digit has been read. *)
Fixpoint parse_digits (R : Z) (acc : option Z) (s : jsstring) : option Z :=
  match s with
  | [] => acc
  | c :: t =>
      match digit_value c with
      | Some d =>
          if d <? R
          then parse_digits R (Some (match acc with
                                     | Some a => a * R + d
                                     | None => d
                                     end)) t
          else acc
      | None => acc
      end
  end.

(** [parseInt(s)] with no radix argument. *)
Definition parseInt (s : jsstring) : number :=
  let s1 := trimStart s in
  let '(sign, s2) :=
    match s1 with
    | 45%N :: t => (-1, t)
    | 43%N :: t => (1, t)
    | _ => (1, s1)
    end in
  let '(R, s3) :=
    match s2 with
    | 48%N :: x :: t =>
        if (N.eqb x 120 || N.eqb x 88)%N then (16, t) else (10, s2)
    | _ => (10, s2)
    end in
  match parse_digits R None s3 with
  | Some n => Num (sign * n)
  | None => NaN
  end.

(* ================================================================== *)
(** * Arrays *)
(* ================================================================== *)

(** A relative start or end of [Array.prototype.slice]: a negative value
    counts from the end of the array. *)
Definition relative_index (len rel : Z) : Z :=
  if rel <? 0 then Z.max (len + rel) 0 else Z.min rel len.

(** [array.slice(start, end)] *)
Definition slice {A : Type} (array : list A) (start end_ : number) : list A :=
  let len := Z.of_nat (length array) in
  let k := relative_index len (ToIntegerOrInfinity start) in
  let final := relative_index len (ToIntegerOrInfinity end_) in
  firstn (Z.to_nat (final - k)) (skipn (Z.to_nat k) array).

(** [array.sort(cmp)]: the sort is stable, and with a consistent comparator
    its result is the one of a stable insertion sort. *)
Fixpoint sort_insert {A : Type} (cmp : A -> A -> Z) (x : A) (s : list A)
  : list A :=
  match s with
  | [] => [x]
  | y :: s' => if cmp x y <=? 0 then x :: s else y :: sort_insert cmp x s'
  end.

Fixpoint sort {A : Type} (cmp : A -> A -> Z) (l : list A) : list A :=
  match l with
  | [] => []
  | x :: t => sort_insert cmp x (sort cmp t)
  end.

(* ================================================================== *)
(** * Pagination *)
(* ================================================================== *)

Record Pagination := {
  index : number;
  size : number;
  prev : option number;
  next : option number;
  files : list jsstring
}.

Record ImageProvider := {
  provider_files : list jsstring;
  pagination : Pagination
}.

Definition PAGE_SIZE : number := Num 20.

Definition paginate (array : list jsstring) (size index : number)
  : list jsstring :=
  slice array (num_mul (num_sub index (Num 1)) size) (num_mul index size).

(** A value of [req.query]. *)
Inductive query_value :=
| QUndefined
| QString (s : jsstring)
| QArray (l : list jsstring)
| QObject.

Definition truthy (q : query_value) : bool :=
  match q with
  | QUndefined => false
  | QString [] => false
  | _ => true
  end.

(** [page && typeof page === "string" ? parseInt(page) : 1] *)
Definition page_index (page : query_value) : number :=
  match page with
  | QString s => if truthy page then parseInt s else Num 1
  | _ => Num 1
  end.

(** The provider the listing handlers build from the scanned files. *)
Definition make_provider (files : list jsstring) (index : number)
  : ImageProvider :=
  let paginated := paginate files PAGE_SIZE index in
  let prevPaginated := paginate files PAGE_SIZE (num_sub index (Num 1)) in
  let nextPaginated := paginate files PAGE_SIZE (num_add index (Num 1)) in
  {| provider_files := files;
     pagination :=
       {| index := index;
          size := PAGE_SIZE;
          prev := if negb (Nat.eqb (length prevPaginated) 0)
                  then Some (num_sub index (Num 1)) else None;
          next := if negb (Nat.eqb (length nextPaginated) 0)
                  then Some (num_add index (Num 1)) else None;
          files := paginated |} |}.

(* ================================================================== *)
(** * Exceptions *)
(* ================================================================== *)

Inductive error :=
| ENOENT        (* no such file or directory *)
| ENOTDIR       (* not a directory *)
| EISDIR        (* illegal operation on a directory *)
| TypeError     (* a property read on null or undefined *)
| AxiosError.   (* the remote request failed *)

Inductive result (A : Type) :=
| Ok (a : A)
| Err (e : error).
Arguments Ok {A} a.
Arguments Err {A} e.

Definition bind {A B : Type} (r : result A) (k : A -> result B) : result B :=
  match r with
  | Ok a => k a
  | Err e => Err e
  end.

Notation "x <- r ;; k" := (bind r (fun x => k))
  (at level 61, r at next level, right associativity).

Fixpoint mapM {A B : Type} (f : A -> result B) (l : list A)
  : result (list B) :=
  match l with
  | [] => Ok []
  | x :: t => y <- f x ;; ys <- mapM f t ;; Ok (y :: ys)
  end.

(* ================================================================== *)
(** * The file system *)
(* ================================================================== *)

(** An absolute, normalised path: its segments from the root. *)
Definition path := list jsstring.

Definition path_eqb : path -> path -> bool := list_eqb str_eqb.

Record node := {
  n_path : path;
  n_isdir : bool;
  n_mtime : Z;          (* milliseconds since the epoch *)
  n_data : list N
}.

Definition FS := list node.

Definition lookup (fs : FS) (p : path) : option node :=
  find (fun n => path_eqb (n_path n) p) fs.

Definition is_directory (fs : FS) (p : path) : bool :=
  match p with
  | [] => true
  | _ => match lookup fs p with
         | Some n => n_isdir n
         | None => false
         end
  end.

(** [fs.existsSync(p)] *)
Definition existsSync (fs : FS) (p : path) : bool :=
  match p with
  | [] => true
  | _ => match lookup fs p with
         | Some _ => true
         | None => false
         end
  end.

(** The name under which [n] is an entry of directory [dir], if it is one. *)
Fixpoint entry_name (dir p : path) : option jsstring :=
  match dir, p with
  | [], [name] => Some name
  | d :: dir', s :: p' => if str_eqb d s then entry_name dir' p' else None
  | _, _ => None
  end.

Fixpoint entries (dir : path) (fs : FS) : list jsstring :=
  match fs with
  | [] => []
  | n :: fs' =>
      match entry_name dir (n_path n) with
      | Some name => name :: entries dir fs'
      | None => entries dir fs'
      end
  end.

(** [fs.readdirSync(dir)] *)
Definition readdirSync (fs : FS) (dir : path) : result (list jsstring) :=
  if is_directory fs dir then Ok (entries dir fs)
  else if existsSync fs dir then Err ENOTDIR
  else Err ENOENT.

(** [fs.statSync(p)] *)
Definition statSync (fs : FS) (p : path) : result node :=
  match lookup fs p with
  | Some n => Ok n
  | None => Err ENOENT
  end.

Definition remove (fs : FS) (p : path) : FS :=
  filter (fun n => negb (path_eqb (n_path n) p)) fs.

(** [fs.unlinkSync(p)] *)
Definition unlinkSync (fs : FS) (p : path) : result FS :=
  match lookup fs p with
  | Some n => if n_isdir n then Err EISDIR else Ok (remove fs p)
  | None => Err ENOENT
  end.

(** [data.pipe(createWriteStream(p))] at time [now]: the file is created or
    truncated and filled; when it cannot be opened the stream reports the
    failure after the handler has returned and nothing is written. *)
Definition pipe_to_file (fs : FS) (p : path) (data : list N) (now : Z) : FS :=
  if is_directory fs (removelast p) && negb (is_directory fs p)
  then remove fs p ++
       [{| n_path := p; n_isdir := false; n_mtime := now; n_data := data |}]
  else fs.

(** Lexical normalisation of path segments: [stack] holds the segments
    resolved so far, innermost first. *)
Fixpoint normalize (stack : list jsstring) (segs : list jsstring) : path :=
  match segs with
  | [] => rev stack
  | seg :: rest =>
      if str_eqb seg [] then normalize stack rest
      else if str_eqb seg (lit ".") then normalize stack rest
      else if str_eqb seg (lit "..") then normalize (tl stack) rest
      else normalize (seg :: stack) rest
  end.

(** [path.resolve(base, name)] for an absolute [base]: an absolute [name]
    replaces the base. *)
Definition path_resolve (base : path) (name : jsstring) : path :=
  match name with
  | 47%N :: _ => normalize [] (split char_slash name)
  | _ => normalize (rev base) (split char_slash name)
  end.

(** [path.join(base, name)]: as [path.resolve], but an absolute [name]
    stays below the base. *)
Definition path_join (base : path) (name : jsstring) : path :=
  normalize (rev base) (split char_slash name).

(* ================================================================== *)
(** * Timestamps: [moment(Date.now()).format("YYYYMMDDHHmmss")] *)
(* ================================================================== *)

(** The decimal digits of a non-negative number, most significant first. *)
Fixpoint decimal_digits (fuel : nat) (n : Z) (acc : jsstring) : jsstring :=
  match fuel with
  | O => acc
  | S fuel' =>
      let acc' := Z.to_N (48 + n mod 10) :: acc in
      if n <? 10 then acc' else decimal_digits fuel' (n / 10) acc'
  end.

Definition decimal (n : Z) : jsstring :=
  decimal_digits (S (Z.to_nat (Z.log2 n))) n [].

(** moment's [zeroFill(n, width)] for a non-negative [n]. *)
Definition zeroFill (n : Z) (width : nat) : jsstring :=
  let d := decimal n in
  repeat 48%N (width - length d) ++ d.

(** The proleptic Gregorian date of a day number counted from 1970-01-01. *)
Definition civil_from_days (z : Z) : Z * Z * Z :=
  let z := z + 719468 in
  let era := z / 146097 in
  let doe := z mod 146097 in
  let yoe := (doe - doe / 1460 + doe / 36524 - doe / 146096) / 365 in
  let doy := doe - (365 * yoe + yoe / 4 - yoe / 100) in
  let mp := (5 * doy + 2) / 153 in
  let d := doy - (153 * mp + 2) / 5 + 1 in
  let m := if mp <? 10 then mp + 3 else mp - 9 in
  let y := yoe + era * 400 + (if m <=? 2 then 1 else 0) in
  (y, m, d).

(** [process.env.TZ = "Asia/Tokyo"]: local time is UTC+9, without daylight
    saving, for every instant from the epoch on. *)
Definition TZ_OFFSET_SECONDS : Z := 9 * 3600.

(** [moment(now).format("YYYYMMDDHHmmss")], [now] in milliseconds. *)
Definition moment_format (now : Z) : jsstring :=
  let secs := now / 1000 + TZ_OFFSET_SECONDS in
  let '(y, m, d) := civil_from_days (secs / 86400) in
  let sod := secs mod 86400 in
  zeroFill y 4 ++ zeroFill m 2 ++ zeroFill d 2 ++
  zeroFill (sod / 3600) 2 ++ zeroFill (sod mod 3600 / 60) 2 ++
  zeroFill (sod mod 60) 2.

(* ================================================================== *)
(** * File formats and file names *)
(* ================================================================== *)

(** The alternatives of [(gif|jpe?g|tiff?|png|webp|bmp|svg)], written out. *)
Definition ALLOWED_FORMATS_ALTERNATIVES : list jsstring :=
  map lit ["gif"; "jpg"; "jpeg"; "tif"; "tiff"; "png"; "webp"; "bmp";
           "svg"]%string.

(** [ALLOWED_FORMATS_REGEX.test(fileName)] for
    [/\.(gif|jpe?g|tiff?|png|webp|bmp|svg)$/i]: the name ends, ignoring the
    case of ASCII letters, with a dot and one of the alternatives. *)
Definition ALLOWED_FORMATS_REGEX_test (fileName : jsstring) : bool :=
  existsb (fun alt => endsWith (lower fileName) (char_dot :: alt))
          ALLOWED_FORMATS_ALTERNATIVES.

(** [ALLOWED_FORMATS], the list shown to the user. *)
Definition ALLOWED_FORMATS : jsstring :=
  lit ".png .jpg .jpeg .gif .webp .bmp .tiff .svg".

(** [s.match(/\..*$/)]: the leftmost dot from which no line terminator
    occurs up to the end of the string; the match is the rest of the string
    from that dot on. *)
Fixpoint match_dot_rest (s : jsstring) : option jsstring :=
  match s with
  | [] => None
  | c :: t =>
      if N.eqb c char_dot && forallb (fun d => negb (is_line_terminator d)) t
      then Some s
      else match_dot_rest t
  end.

(** The [filename] callback of [multer.diskStorage]. *)
Definition storage_filename (originalname : jsstring) (now : Z)
  : result jsstring :=
  let base := hd [] (split char_dot originalname) in
  let stamp := moment_format now in
  match match_dot_rest originalname with
  | Some ext => Ok (base ++ lit "-" ++ stamp ++ ext)
  | None => Err TypeError
  end.

(** The destination name of a remotely fetched image:
    [contentType.split("/")[1]] is [undefined] when there is no slash. *)
Definition content_type_ext (contentType : jsstring) : jsstring :=
  match nth_error (split char_slash contentType) 1 with
  | Some ext => ext
  | None => lit "undefined"
  end.

Definition destFileName (uuid : jsstring) (now : Z) (contentType : jsstring)
  : jsstring :=
  uuid ++ lit "-" ++ moment_format now ++ lit "." ++
  content_type_ext contentType.

(** A call of the callback of [fileFilter]. *)
Inductive filter_callback :=
| cb_accept (accept : bool)
| cb_error (name message : jsstring).

Definition ALLOWED_MIMETYPES : list jsstring :=
  map lit ["image/png"; "image/jpg"; "image/jpeg"; "image/gif"; "image/webp";
           "image/bmp"; "image/tiff"; "image/svg+xml"]%string.

(** The [fileFilter] of the uploader: the calls it makes of its callback. *)
Definition fileFilter (mimetype : jsstring) : list filter_callback :=
  if existsb (str_eqb mimetype) ALLOWED_MIMETYPES
  then [cb_accept true]
  else [cb_accept false;
        cb_error (lit "ExtensionError") ALLOWED_FORMATS].

(* ================================================================== *)
(** * Responses *)
(* ================================================================== *)

Inductive body :=
| BEmpty
| BText (s : jsstring)
| BJson (fields : list (jsstring * jsstring))
| BError (e : error).

(** What goes over the wire once the response has been ended. *)
Record wire := {
  w_status : Z;
  w_headers : list (jsstring * jsstring);
  w_body : body
}.

(** The response object [res]: its status code and headers can be set until
    it is ended; ending it a second time changes nothing. *)
Record Res := {
  statusCode : Z;
  headers : list (jsstring * jsstring);
  sent : option wire
}.

Definition fresh_res : Res :=
  {| statusCode := 200; headers := []; sent := None |}.

Definition status (code : Z) (res : Res) : Res :=
  {| statusCode := code; headers := headers res; sent := sent res |}.

(** Header names are compared without regard to case. *)
Definition same_header (a b : jsstring) : bool := str_eqb (lower a) (lower b).

(** [res.setHeader(name, value)] replaces the header of that name; once the
    response has been ended it throws and the headers sent stay as they
    were. *)
Definition setHeader (name value : jsstring) (res : Res) : Res :=
  match sent res with
  | Some _ => res
  | None => {| statusCode := statusCode res;
               headers := filter (fun kv => negb (same_header (fst kv) name))
                                 (headers res) ++ [(name, value)];
               sent := None |}
  end.

Definition end_ (b : body) (res : Res) : Res :=
  match sent res with
  | Some _ => res
  | None => {| statusCode := statusCode res;
               headers := headers res;
               sent := Some {| w_status := statusCode res;
                               w_headers := headers res;
                               w_body := b |} |}
  end.

Definition send (b : body) (res : Res) : Res := end_ b res.

Definition redirect (url : jsstring) (res : Res) : Res :=
  end_ BEmpty (setHeader (lit "Location") url (status 302 res)).

(** What a route handler leaves behind: the response, the file system, and
    whether it passed the request on with [next()]. *)
Record handled := {
  h_res : Res;
  h_fs : FS;
  h_next : bool
}.

Definition respond (res : Res) (fs : FS) : handled :=
  {| h_res := res; h_fs := fs; h_next := false |}.

Definition pass_on (res : Res) (fs : FS) : handled :=
  {| h_res := res; h_fs := fs; h_next := true |}.

Definition response_status (h : handled) : option Z :=
  option_map w_status (sent (h_res h)).

Definition response_header (h : handled) (name : jsstring)
  : option jsstring :=
  match sent (h_res h) with
  | Some w => option_map snd
                (find (fun kv => same_header (fst kv) name) (w_headers w))
  | None => None
  end.

(** An uploaded part of a multipart request. *)
Record upload_file := {
  originalname : jsstring;
  mimetype : jsstring;
  content : list N
}.

(** The error an upload ends with: [instanceof multer.MulterError] or not,
    with its [name] and [message]. *)
Record upload_error := {
  is_MulterError : bool;
  err_name : jsstring;
  err_message : jsstring
}.

(** The response of the remote server to the request of [axios]. *)
Record remote_response := {
  content_type : option jsstring;
  data : list N
}.

(* ================================================================== *)
(** * The server *)
(* ================================================================== *)

Section Server.

(** The configuration read from the environment at start-up, and the
    directory of the program. *)
Variable __dirname : path.
Variable SITE_BASEURL : jsstring.
Variable ADMIN_USER : jsstring.
Variable ADMIN_PASS : jsstring.
Variable UPLOAD_LIMIT_MB : Z.

(** Third-party code: the keyed hash of tsscmp with the key it draws, and
    the upload middleware multer builds from the storage callbacks, the
    file filter, the size limit and the file count. *)
Variable hmac : jsstring -> jsstring -> jsstring.
Variable key : jsstring.
Variable multer_array :
  (jsstring -> Z -> result jsstring) ->
  (jsstring -> list filter_callback) ->
  Z -> Z -> path ->
  list upload_file -> Z -> FS -> FS * option upload_error.

Definition storage_dir : path := path_join __dirname (lit "storage").

(** ** Directory scanner *)

Record scanned := { fileName : jsstring; time : Z }.

Definition readSyncImageFiles (fs : FS) : result (list jsstring) :=
  names <- readdirSync fs storage_dir ;;
  stamped <- mapM (fun fileName =>
                     st <- statSync fs (path_join storage_dir fileName) ;;
                     Ok {| fileName := fileName; time := n_mtime st |})
                  (filter ALLOWED_FORMATS_REGEX_test names) ;;
  Ok (map fileName (sort (fun a b => time b - time a) stamped)).

(** ** Listing: [app.get("/")] and [app.get("/delete")] build the same
    provider and differ in the page they render from it. *)

Definition get_index (page : query_value) (fs : FS) : result ImageProvider :=
  files <- readSyncImageFiles fs ;;
  Ok (make_provider files (page_index page)).

Definition get_delete (page : query_value) (fs : FS)
  : result ImageProvider :=
  files <- readSyncImageFiles fs ;;
  Ok (make_provider files (page_index page)).

(** ** Access gate *)

(** [bufferEqual] of tsscmp. *)
Definition bufferEqual (a b : jsstring) : bool :=
  if negb (Nat.eqb (length a) (length b)) then false else str_eqb a b.

(** [compare] of tsscmp: double HMAC, then the plain comparison. *)
Definition compare (a b : jsstring) : bool :=
  let ah := hmac key a in
  let bh := hmac key b in
  bufferEqual ah bh && str_eqb a b.

Definition checkAuth (user pass : jsstring) : bool :=
  let valid := true in
  let valid := compare user ADMIN_USER && valid in
  let valid := compare pass ADMIN_PASS && valid in
  valid.

(** The value of [auth(req)]: the name and password of the Authorization
    header, when there is a well-formed one. *)
Definition credentials := option (jsstring * jsstring).

(** [!credentials || !checkAuth(credentials.name, credentials.pass)] *)
Definition denied (c : credentials) : bool :=
  match c with
  | None => true
  | Some (name, pass) => negb (checkAuth name pass)
  end.

Definition challenge : jsstring :=
  lit "Basic realm=" ++ [char_quote] ++ lit "Access to the staging site" ++
  [char_quote] ++ lit ", charset=" ++ [char_quote] ++ lit "UTF-8" ++
  [char_quote].

Definition access_denied (res : Res) : Res :=
  let res := status 401 res in
  let res := setHeader (lit "WWW-Authenticate") challenge res in
  end_ (BText (lit "Access denied")) res.

(** ** Upload: [app.post("/upload")] *)

Definition uploader : list upload_file -> Z -> FS -> FS * option upload_error :=
  multer_array storage_filename fileFilter
               (UPLOAD_LIMIT_MB * 1024 * 1024) 4 storage_dir.

Definition post_upload (c : credentials) (parts : list upload_file)
           (now : Z) (fs : FS) (res : Res) : handled :=
  if denied c then respond (access_denied res) fs
  else
    let '(fs', err) := uploader parts now fs in
    match err with
    | Some e =>
        if is_MulterError e
        then respond
               (end_ BEmpty
                  (send (BJson [(lit "error",
                                 lit "Multer uploading error: " ++
                                 err_message e)])
                        (status 500 res))) fs'
        else if str_eqb (err_name e) (lit "ExtensionError")
        then respond
               (end_ BEmpty
                  (send (BJson [(lit "error", err_message e)])
                        (status 413 res))) fs'
        else respond
               (end_ BEmpty
                  (send (BJson [(lit "error",
                                 lit "unknown uploading error: " ++
                                 err_message e)])
                        (status 500 res))) fs'
    | None => respond (redirect SITE_BASEURL res) fs'
    end.

(** ** Delete: [app.delete("/delete")] *)

Definition delete_delete (c : credentials) (fileName : query_value)
           (fs : FS) (res : Res) : handled :=
  if denied c then respond (access_denied res) fs
  else
    match fileName with
    | QString name =>
        if negb (truthy fileName) then pass_on res fs
        else
          let target := path_resolve storage_dir name in
          if negb (existsSync fs target)
          then respond (end_ BEmpty (status 404 res)) fs
          else
            let '(res, fs) :=
              match unlinkSync fs target with
              | Ok fs' => (res, fs')
              | Err e => (end_ BEmpty (send (BError e) (status 500 res)), fs)
              end in
            let res := status 204 res in
            respond (end_ BEmpty res) fs
    | _ => pass_on res fs
    end.

(** ** Fetch from a URL: [app.put("/url2image")]; [remote] is what the
    request of axios settles to, [uuid] the value of [uuidv4()]. *)

Definition put_url2image (c : credentials) (url : query_value)
           (remote : result remote_response) (uuid : jsstring) (now : Z)
           (fs : FS) (res : Res) : handled :=
  if denied c then respond (access_denied res) fs
  else
    match url with
    | QString u =>
        if negb (truthy url) then pass_on res fs
        else
          let on_error (e : error) :=
            respond (end_ BEmpty (send (BError e) (status 500 res))) fs in
          match remote with
          | Err e => on_error e
          | Ok response =>
              match content_type response with
              | None => on_error TypeError
              | Some contentType =>
                  if negb (startsWith contentType (lit "image"))
                  then respond (end_ BEmpty (status 500 res)) fs
                  else
                    let name := destFileName uuid now contentType in
                    let fs' := pipe_to_file
                                 fs (path_resolve storage_dir name)
                                 (data response) now in
                    respond
                      (end_ BEmpty
                         (send (BJson
                                  [(lit "imageUrl",
                                    SITE_BASEURL ++ lit "/" ++ name);
                                   (lit "fileName", name)])
                               (status 200 res))) fs'
              end
          end
    | _ => pass_on res fs
    end.

End Server.

(* ================================================================== *)
(** * The specification's own notions *)
(* ================================================================== *)

(** The slice [lo, hi) clamped to the bounds of the sequence: the elements
    whose position [p], counted from [pos] on, has [lo <= p < hi]. *)
Fixpoint positions_between {A : Type} (pos lo hi : Z) (l : list A) : list A :=
  match l with
  | [] => []
  | x :: t =>
      if (lo <=? pos) && (pos <? hi)
      then x :: positions_between (pos + 1) lo hi t
      else positions_between (pos + 1) lo hi t
  end.

Definition clamped_slice {A : Type} (l : list A) (lo hi : Z) : list A :=
  positions_between 0 lo hi l.

(** The allow-list as the specification enumerates it. *)
Definition SPEC_ALLOW_LIST : list jsstring :=
  map lit ["png"; "jpg"; "jpeg"; "gif"; "webp"; "bmp"; "tiff"; "svg"]%string.

(** The extension of a file name: what follows its last dot. *)
Definition extension (name : jsstring) : option jsstring :=
  match split char_dot name with
  | [] | [_] => None
  | segs => Some (last segs [])
  end.

Definition spec_allowed (name : jsstring) : bool :=
  match extension name with
  | Some e => existsb (str_eqb (lower e)) SPEC_ALLOW_LIST
  | None => false
  end.

(** [segs.join(sep)] *)
Fixpoint join (sep : N) (segs : list jsstring) : jsstring :=
  match segs with
  | [] => []
  | [seg] => seg
  | seg :: rest => seg ++ sep :: join sep rest
  end.

(** The base of a file name without its extension: what precedes its last
    dot. *)
Definition spec_base (name : jsstring) : jsstring :=
  match split char_dot name with
  | [] | [_] => name
  | segs => join char_dot (removelast segs)
  end.

(** The extension with its dot. *)
Definition spec_ext (name : jsstring) : jsstring :=
  match extension name with
  | Some e => char_dot :: e
  | None => []
  end.

(** The upload file name as the specification words it:
    base without extension, a dash, the timestamp, the extension. *)
Definition spec_upload_filename (name : jsstring) (now : Z) : jsstring :=
  spec_base name ++ lit "-" ++ moment_format now ++ spec_ext name.

(** What a client that is turned away gets: status 401, a Basic challenge,
    an untouched file system, and no [next()]. *)
Definition turned_away (fs : FS) (h : handled) : Prop :=
  response_status h = Some 401 /\
  (exists value,
      response_header h (lit "WWW-Authenticate") = Some value /\
      startsWith value (lit "Basic") = true) /\
  h_fs h = fs /\
  h_next h = false.

(** The characters of a formatted timestamp. *)
Definition is_digit (c : N) : bool := (N.leb 48 c && N.leb c 57)%N.

Definition no_line_terminator (s : jsstring) : bool :=
  forallb (fun c => negb (is_line_terminator c)) s.

(** The first instant, in milliseconds, whose local year has five digits. *)
Definition YEAR_10000 : Z := 253402268400000.

(** [f] holds of the [count] numbers from [z] on. *)
Fixpoint all_from (count : nat) (z : Z) (f : Z -> bool) : bool :=
  match count with
  | O => true
  | S k => f z && all_from k (z + 1) f
  end.

(** [f] holds of every natural number below [bound]. *)
Definition all_below (bound : Z) (f : Z -> bool) : bool :=
  all_from (Z.to_nat bound) 0 f.

(** The date of the day [doe] of a 400-year era is a date: the check run
    over an era. *)
Definition era_day_ok (doe : Z) : bool :=
  let '(y, m, d) := civil_from_days (doe - 719468) in
  (0 <=? y) && (y <=? 400) && ((146037 <=? doe) || (y <=? 399)) &&
  (1 <=? m) && (m <=? 12) && (1 <=? d) && (d <=? 31).

(* ================================================================== *)
(** * Well-formed file systems *)
(* ================================================================== *)

(** A name a directory entry can have: not empty, not [.] or [..], and
    without a slash. *)
Definition plain_name (name : jsstring) : bool :=
  negb (str_eqb name []) && negb (str_eqb name (lit ".")) &&
  negb (str_eqb name (lit "..")) &&
  forallb (fun c => negb (N.eqb c char_slash)) name.

Definition plain_path (p : path) : bool := forallb plain_name p.

Definition wf_fs (fs : FS) : bool := forallb (fun n => plain_path (n_path n)) fs.

(** The last-modified time of an entry of the storage directory. *)
Definition mtime_of (dirname : path) (fs : FS) (name : jsstring) : Z :=
  match statSync fs (path_join (storage_dir dirname) name) with
  | Ok st => n_mtime st
  | Err _ => 0
  end.

(** The scanner as the specification words it: exactly the entries whose
    extension is in the allow-list, in strictly descending order of
    last-modified time. *)
Definition scan_as_specified (dirname : path) (fs : FS) : Prop :=
  exists files,
    readSyncImageFiles dirname fs = Ok files /\
    (forall name,
        In name files <->
        In name (entries (storage_dir dirname) fs) /\
        spec_allowed name = true) /\
    StronglySorted
      (fun a b => mtime_of dirname fs a > mtime_of dirname fs b) files.

(** The comparator [(a, b) => key(b) - key(a)]: descending keys. *)
Definition descending {A : Type} (key : A -> Z) (a b : A) : Z :=
  key b - key a.

(* ================================================================== *)
(** * Sample data *)
(* ================================================================== *)

Definition app_dir : path := [lit "app"].

Definition dir_node (p : path) : node :=
  {| n_path := p; n_isdir := true; n_mtime := 0; n_data := [] |}.

Definition file_node (p : path) (mtime : Z) : node :=
  {| n_path := p; n_isdir := false; n_mtime := mtime; n_data := [] |}.

Definition stored (name : string) (mtime : Z) : node :=
  file_node (app_dir ++ [lit "storage"; lit name]) mtime.

Definition img (k : nat) : jsstring :=
  lit "img" ++ decimal (Z.of_nat k) ++ lit ".png".

(** Twenty-five file names. *)
Definition names25 : list jsstring := map img (seq 1 25).

(** A deployment: the program, its storage directory, and in it twenty-five
    images, each a second newer than the one after it. *)
Definition fs_base : FS :=
  [dir_node app_dir;
   file_node (app_dir ++ [lit "app.js"]) 1000;
   dir_node (app_dir ++ [lit "storage"])].

Definition fs25 : FS :=
  fs_base ++
  map (fun k => file_node (app_dir ++ [lit "storage"; img k])
                          (1700000000000 - 1000 * Z.of_nat k))
      (seq 1 25).

(** A storage directory holding a [.tif] file. *)
Definition fs_tif : FS := fs_base ++ [stored "scan.tif" 5000].

(** A storage directory holding two images modified in the same
    millisecond. *)
Definition fs_ties : FS :=
  fs_base ++ [stored "a.png" 5000; stored "b.png" 5000].

(** A storage directory holding one image. *)
Definition fs_one : FS := fs_base ++ [stored "a.png" 5000].

Definition sample_hmac (key msg : jsstring) : jsstring := key ++ msg.
Definition sample_key : jsstring := lit "k".
Definition sample_user : jsstring := lit "hoge".
Definition sample_pass : jsstring := lit "foo".
Definition sample_baseurl : jsstring := lit "https://foo.com".
Definition sample_uuid : jsstring := lit "1b9d6bcd-bbfd-4b2d-9b5d-ab8dfbbd4bed".
Definition sample_now : Z := 1700000000000.

(** A stand-in for the upload middleware that stores nothing. *)
Definition sample_multer
  (filename : jsstring -> Z -> result jsstring)
  (filter : jsstring -> list filter_callback)
  (fileSize count : Z) (dest : path)
  (parts : list upload_file) (now : Z) (fs : FS)
  : FS * option upload_error := (fs, None).

Definition admin : option (jsstring * jsstring) :=
  Some (sample_user, sample_pass).

(* ================================================================== *)
(** * The single-image view *)
(* ================================================================== *)

(** A page template applied to its arguments. *)
Inductive rendered :=
| ImagePage (fileName : jsstring) (provider : ImageProvider).

(** What a page handler answers: a rendered page, a refusal, or [next()]. *)
Inductive page_view :=
| Rendered (code : Z) (page : rendered)
| Refused (code : Z) (b : body)
| PassedOn.

(** [app.get("/i/:fileName")]: the extension is tested before the storage
    directory is read; the provider is the one of the first page. *)
Definition get_image (dirname : path) (fileName : jsstring) (fs : FS)
  : result page_view :=
  match fileName with
  | [] => Ok PassedOn
  | _ =>
      if negb (ALLOWED_FORMATS_REGEX_test fileName)
      then Ok (Refused 415 (BJson [(lit "error",
                                    lit "Unsupported Media Type")]))
      else
        files <- readSyncImageFiles dirname fs ;;
        Ok (Rendered 200 (ImagePage fileName (make_provider files (Num 1))))
  end.

(* ================================================================== *)
(** * Auxiliary notions for the proofs *)
(* ================================================================== *)

(** The first [count] pages of a list. *)
Definition pages (array : list jsstring) (size : Z) (count : nat)
  : list (list jsstring) :=
  map (fun i => paginate array (Num size) (Num (Z.of_nat i))) (seq 1 count).

(** The formats [ALLOWED_FORMATS] shows to the user, one by one. *)
Definition advertised_formats : list jsstring := split 32%N ALLOWED_FORMATS.

(** The number a string of decimal digits denotes. *)
Definition digits_value (s : jsstring) : Z :=
  fold_left (fun acc c => acc * 10 + (Z.of_N c - 48)) s 0.

(** The day number, counted from 1970-01-01, of a proleptic Gregorian
    date: the inverse of [civil_from_days]. *)
Definition days_from_civil (y m d : Z) : Z :=
  let y := if m <=? 2 then y - 1 else y in
  let era := y / 400 in
  let yoe := y mod 400 in
  let mp := if 2 <? m then m - 3 else m + 9 in
  let doy := (153 * mp + 2) / 5 + d - 1 in
  let doe := yoe * 365 + yoe / 4 - yoe / 100 + doy in
  era * 146097 + doe - 719468.

(** The date of the day [doe] of an era is found back from its fields. *)
Definition era_day_back (doe : Z) : bool :=
  let '(y, m, d) := civil_from_days (doe - 719468) in
  days_from_civil y m d =? doe - 719468.

(** The file system has one node per path. *)
Definition unique_paths (fs : FS) : Prop := NoDup (map n_path fs).

(* ================================================================== *)
(** * Strings: basic facts *)
(* ================================================================== *)

Lemma str_eqb_eq (a b : jsstring) : str_eqb a b = true <-> a = b.
Proof.
  unfold str_eqb. revert b.
  induction a as [|x a IH]; intros [|y b]; simpl; split; intro H;
    try reflexivity; try discriminate.
  - apply andb_true_iff in H as [Hx Hab].
    apply N.eqb_eq in Hx. apply IH in Hab. now subst.
  - injection H as -> ->. rewrite N.eqb_refl. simpl. now apply IH.
Qed.

Lemma str_eqb_refl (a : jsstring) : str_eqb a a = true.
Proof. now apply str_eqb_eq. Qed.

Lemma str_eqb_neq (a b : jsstring) : str_eqb a b = false <-> a <> b.
Proof.
  split.
  - intros H E. apply str_eqb_eq in E. congruence.
  - intro H. destruct (str_eqb a b) eqn:E; [|reflexivity].
    apply str_eqb_eq in E. contradiction.
Qed.

Lemma path_eqb_eq (p q : path) : path_eqb p q = true <-> p = q.
Proof.
  unfold path_eqb. revert q.
  induction p as [|x p IH]; intros [|y q]; simpl; split; intro H;
    try reflexivity; try discriminate.
  - apply andb_true_iff in H as [Hx Hpq].
    apply str_eqb_eq in Hx. apply IH in Hpq. now subst.
  - injection H as -> ->. rewrite str_eqb_refl. simpl. now apply IH.
Qed.

Lemma path_eqb_refl (p : path) : path_eqb p p = true.
Proof. now apply path_eqb_eq. Qed.

Lemma startsWith_app (s p : jsstring) :
  startsWith s p = true <-> exists rest, s = p ++ rest.
Proof.
  revert s. induction p as [|c p IH]; intros s.
  - split; [intros _; now exists s | intros _; now destruct s].
  - destruct s as [|d s]; cbn [startsWith].
    + split; [discriminate | intros [rest H]; discriminate].
    + rewrite andb_true_iff, N.eqb_eq, IH. split.
      * intros [-> [rest ->]]. now exists rest.
      * intros [rest H]. injection H as -> ->.
        split; [reflexivity | now exists rest].
Qed.

Lemma endsWith_app (s p : jsstring) :
  endsWith s p = true <-> exists front, s = front ++ p.
Proof.
  unfold endsWith. rewrite startsWith_app. split.
  - intros [rest H]. exists (rev rest).
    rewrite <- (rev_involutive s), H, rev_app_distr, rev_involutive.
    reflexivity.
  - intros [front ->]. exists (rev front). now rewrite rev_app_distr.
Qed.

(* ================================================================== *)
(** * Pagination: the slice *)
(* ================================================================== *)

Lemma positions_between_firstn_skipn {A : Type} (l : list A) :
  forall pos lo hi,
    positions_between pos lo hi l =
    firstn (Z.to_nat (Z.min hi (pos + Z.of_nat (length l)) - Z.max lo pos))
           (skipn (Z.to_nat (lo - pos)) l).
Proof.
  induction l as [|x t IH]; intros pos lo hi.
  - simpl. now rewrite skipn_nil, firstn_nil.
  - cbn [positions_between]. rewrite IH.
    replace (Z.of_nat (length (x :: t))) with (1 + Z.of_nat (length t))
      by (simpl length; lia).
    destruct (lo <=? pos) eqn:Hlo; [apply Z.leb_le in Hlo|apply Z.leb_gt in Hlo].
    + replace (Z.to_nat (lo - pos)) with 0%nat by lia.
      replace (Z.to_nat (lo - (pos + 1))) with 0%nat by lia.
      cbn [skipn].
      destruct (pos <? hi) eqn:Hhi;
        [apply Z.ltb_lt in Hhi|apply Z.ltb_ge in Hhi]; cbn [andb].
      * replace (Z.to_nat (Z.min hi (pos + (1 + Z.of_nat (length t)))
                           - Z.max lo pos))
          with (S (Z.to_nat (Z.min hi (pos + 1 + Z.of_nat (length t))
                             - Z.max lo (pos + 1)))) by lia.
        reflexivity.
      * replace (Z.to_nat (Z.min hi (pos + (1 + Z.of_nat (length t)))
                           - Z.max lo pos)) with 0%nat by lia.
        replace (Z.to_nat (Z.min hi (pos + 1 + Z.of_nat (length t))
                           - Z.max lo (pos + 1))) with 0%nat by lia.
        reflexivity.
    + cbn [andb].
      replace (Z.to_nat (lo - pos)) with (S (Z.to_nat (lo - (pos + 1))))
        by lia.
      cbn [skipn].
      f_equal. lia.
Qed.

Lemma relative_index_nonneg (len rel : Z) :
  0 <= rel -> relative_index len rel = Z.min rel len.
Proof.
  intro H. unfold relative_index.
  destruct (rel <? 0) eqn:E; [apply Z.ltb_lt in E; lia | reflexivity].
Qed.

(** On non-negative bounds [slice] is the clamped slice. *)
Lemma slice_clamped {A : Type} (l : list A) (lo hi : Z) :
  0 <= lo -> 0 <= hi ->
  slice l (Num lo) (Num hi) = clamped_slice l lo hi.
Proof.
  intros Hlo Hhi. unfold slice, clamped_slice. cbn [ToIntegerOrInfinity].
  rewrite positions_between_firstn_skipn, !relative_index_nonneg by assumption.
  set (len := Z.of_nat (length l)).
  assert (Hlen : 0 <= len) by (unfold len; lia).
  destruct (Z.le_gt_cases lo len) as [Hle|Hgt].
  - replace (Z.min lo len) with lo by lia.
    replace (lo - 0) with lo by lia. f_equal. lia.
  - rewrite (skipn_all2 (n := Z.to_nat (lo - 0))) by (unfold len in *; lia).
    rewrite firstn_nil.
    replace (Z.to_nat (Z.min hi len - Z.min lo len)) with 0%nat by lia.
    reflexivity.
Qed.

Lemma slice_length {A : Type} (l : list A) (a b : number) :
  Z.of_nat (length (slice l a b)) =
  Z.max 0 (relative_index (Z.of_nat (length l)) (ToIntegerOrInfinity b)
           - relative_index (Z.of_nat (length l)) (ToIntegerOrInfinity a)).
Proof.
  unfold slice. rewrite length_firstn, length_skipn.
  set (len := Z.of_nat (length l)).
  assert (Hlen : 0 <= len) by (unfold len; lia).
  assert (Hk : forall r, 0 <= relative_index len r <= len).
  { intro r. unfold relative_index.
    destruct (r <? 0) eqn:E; [apply Z.ltb_lt in E|apply Z.ltb_ge in E]; lia. }
  pose proof (Hk (ToIntegerOrInfinity a)).
  pose proof (Hk (ToIntegerOrInfinity b)).
  unfold len in *. lia.
Qed.

Lemma empty_length_0 {A : Type} (l : list A) : l = [] <-> length l = 0%nat.
Proof. destruct l; simpl; split; congruence. Qed.

(** The page before the first one is always empty. *)
Lemma paginate_page_zero (array : list jsstring) :
  paginate array PAGE_SIZE (Num 0) = [].
Proof.
  apply empty_length_0. apply Nat2Z.inj.
  unfold paginate, PAGE_SIZE. cbn [num_sub num_mul]. rewrite slice_length.
  cbn [ToIntegerOrInfinity]. unfold relative_index.
  change ((0 - 1) * 20 <? 0) with true. change (0 * 20 <? 0) with false.
  cbn iota. lia.
Qed.

(** C1. For a page size [S >= 0] and a 1-based page index [I >= 1],
    [paginate] returns the slice [(I-1)*S, I*S) clamped to the bounds of the
    list; a page that starts at or beyond the end of the list is empty; and
    on a list of 25 elements with [S = 20], page 1 is the first 20 elements,
    page 2 the remaining 5, and page 3 is empty. *)
Theorem paginate_clamped_slice (array : list jsstring) (S I : Z)
  (HS : 0 <= S) (HI : 1 <= I) :
  paginate array (Num S) (Num I) = clamped_slice array ((I - 1) * S) (I * S) /\
  (Z.of_nat (length array) <= (I - 1) * S ->
   paginate array (Num S) (Num I) = []) /\
  (length array = 25%nat ->
   paginate array (Num 20) (Num 1) = firstn 20 array /\
   paginate array (Num 20) (Num 2) = skipn 20 array /\
   length (paginate array (Num 20) (Num 2)) = 5%nat /\
   paginate array (Num 20) (Num 3) = []).
Proof.
  assert (Hlo : 0 <= (I - 1) * S) by (apply Z.mul_nonneg_nonneg; lia).
  assert (Hhi : 0 <= I * S) by (apply Z.mul_nonneg_nonneg; lia).
  split; [|split].
  - unfold paginate. cbn [num_sub num_mul]. now apply slice_clamped.
  - intro Hout. apply empty_length_0. apply Nat2Z.inj.
    unfold paginate. cbn [num_sub num_mul]. rewrite slice_length.
    cbn [ToIntegerOrInfinity]. rewrite !relative_index_nonneg by assumption.
    lia.
  - intro H25.
    assert (H5 : length (skipn 20 array) = 5%nat)
      by (rewrite length_skipn, H25; reflexivity).
    unfold paginate, slice. cbn [num_sub num_mul ToIntegerOrInfinity].
    rewrite H25.
    change (relative_index (Z.of_nat 25) ((1 - 1) * 20)) with 0.
    change (relative_index (Z.of_nat 25) (1 * 20)) with 20.
    change (relative_index (Z.of_nat 25) ((2 - 1) * 20)) with 20.
    change (relative_index (Z.of_nat 25) (2 * 20)) with 25.
    change (relative_index (Z.of_nat 25) ((3 - 1) * 20)) with 25.
    change (relative_index (Z.of_nat 25) (3 * 20)) with 25.
    change (Z.to_nat (20 - 0)) with 20%nat.
    change (Z.to_nat (25 - 20)) with 5%nat.
    change (Z.to_nat (25 - 25)) with 0%nat.
    change (Z.to_nat 0) with 0%nat. change (Z.to_nat 20) with 20%nat.
    rewrite (firstn_all2 (n := 5)) by (rewrite H5; lia).
    repeat split. exact H5.
Qed.

Lemma paginate_clamped_slice_witness :
  paginate names25 (Num 20) (Num 2) = clamped_slice names25 ((2 - 1) * 20) (2 * 20) /\
  length (paginate names25 (Num 20) (Num 2)) = 5%nat /\
  paginate names25 (Num 20) (Num 3) = [].
Proof.
  destruct (paginate_clamped_slice names25 20 2) as [H1 [_ H3]]; [lia|lia|].
  destruct H3 as [_ [_ [H5 H0]]]; [reflexivity|].
  exact (conj H1 (conj H5 H0)).
Defined.

(* ================================================================== *)
(** * Pagination: the listing handlers *)
(* ================================================================== *)

Lemma get_index_inv (dirname : path) (page : query_value) (fs : FS)
      (provider : ImageProvider) :
  get_index dirname page fs = Ok provider ->
  exists files,
    readSyncImageFiles dirname fs = Ok files /\
    provider = make_provider files (page_index page).
Proof.
  unfold get_index, bind.
  destruct (readSyncImageFiles dirname fs) as [files|e]; [|discriminate].
  intro H. injection H as <-. now exists files.
Qed.

(** The handler of the delete page computes the provider of the index
    page. *)
Lemma get_delete_get_index : get_delete = get_index.
Proof. reflexivity. Qed.

Lemma make_provider_prev (files : list jsstring) (i : number) :
  prev (pagination (make_provider files i)) = None <->
  paginate files PAGE_SIZE (num_sub i (Num 1)) = [].
Proof.
  cbn [make_provider pagination prev]. rewrite empty_length_0.
  destruct (length (paginate files PAGE_SIZE (num_sub i (Num 1)))); cbn;
    split; congruence.
Qed.

Lemma make_provider_next (files : list jsstring) (i : number) :
  next (pagination (make_provider files i)) = None <->
  paginate files PAGE_SIZE (num_add i (Num 1)) = [].
Proof.
  cbn [make_provider pagination next]. rewrite empty_length_0.
  destruct (length (paginate files PAGE_SIZE (num_add i (Num 1)))); cbn;
    split; congruence.
Qed.

(** C2, as the code has it.  For the provider a listing request computes
    from the scanned files and the requested index: [prev] is absent exactly
    when the slice at the index before is empty, [next] is absent exactly
    when the slice at the index after is empty; and for a requested index
    [I >= 1], [prev] is absent exactly when [I <= 1] or the slice at [I-1] is
    empty. *)
Theorem get_index_prev_next (dirname : path) (page : query_value) (fs : FS)
  (provider : ImageProvider)
  (H : get_index dirname page fs = Ok provider) :
  let files := provider_files provider in
  let p := pagination provider in
  readSyncImageFiles dirname fs = Ok files /\
  index p = page_index page /\
  (prev p = None <->
   paginate files PAGE_SIZE (num_sub (page_index page) (Num 1)) = []) /\
  (next p = None <->
   paginate files PAGE_SIZE (num_add (page_index page) (Num 1)) = []) /\
  (forall I, page_index page = Num I -> 1 <= I ->
     (prev p = None <->
      I <= 1 \/ paginate files PAGE_SIZE (Num (I - 1)) = []) /\
     (next p = None <-> paginate files PAGE_SIZE (Num (I + 1)) = [])).
Proof.
  apply get_index_inv in H as [files [Hscan ->]].
  cbn zeta. cbn [provider_files].
  split; [exact Hscan|]. split; [reflexivity|].
  split; [apply make_provider_prev|]. split; [apply make_provider_next|].
  intros I HI H1. split.
  - rewrite make_provider_prev, HI. cbn [num_sub]. split.
    + intro E. now right.
    + intros [Hle|E]; [|exact E].
      replace (I - 1) with 0 by lia. apply paginate_page_zero.
  - rewrite make_provider_next, HI. reflexivity.
Qed.

Lemma get_index_prev_next_witness :
  (prev (pagination (make_provider names25 (Num 2))) = None <->
   2 <= 1 \/ paginate names25 PAGE_SIZE (Num (2 - 1)) = []) /\
  (next (pagination (make_provider names25 (Num 2))) = None <->
   paginate names25 PAGE_SIZE (Num (2 + 1)) = []).
Proof.
  assert (H : get_index app_dir (QString (lit "2")) fs25 =
              Ok (make_provider names25 (Num 2)))
    by (vm_compute; reflexivity).
  destruct (get_index_prev_next _ _ _ _ H) as (_ & _ & _ & _ & HI).
  apply (HI 2); [reflexivity | lia].
Defined.

(** C2 fails as stated: with 25 files, the request for page 0 gets a [prev]
    link (to page -1, whose slice counts from the end of the list and holds
    five files) although the index is at most 1. *)
Lemma prev_present_at_page_zero :
  exists provider,
    get_index app_dir (QString (lit "0")) fs25 = Ok provider /\
    page_index (QString (lit "0")) = Num 0 /\
    prev (pagination provider) = Some (Num (-1)) /\
    length (paginate (provider_files provider) PAGE_SIZE (Num (0 - 1))) = 5%nat /\
    ~ (prev (pagination provider) = None <->
       0 <= 1 \/ paginate (provider_files provider) PAGE_SIZE (Num (0 - 1)) = []).
Proof.
  exists (make_provider names25 (Num 0)).
  split; [vm_compute; reflexivity|].
  split; [reflexivity|].
  split; [vm_compute; reflexivity|].
  split; [vm_compute; reflexivity|].
  intros [_ H].
  assert (E : prev (pagination (make_provider names25 (Num 0))) = None)
    by (apply H; left; lia).
  vm_compute in E. discriminate E.
Qed.

(** C7, as the code has it.  A listing request whose [page] parameter is
    missing, empty or not a string uses index 1 and is served the first
    page.  A non-empty string is given to [parseInt]; when that yields NaN
    (a non-numeric string), the index is NaN, the page served is empty and
    has neither [prev] nor [next]. *)
Theorem get_index_page_default (dirname : path) (page : query_value) (fs : FS)
  (provider : ImageProvider)
  (H : get_index dirname page fs = Ok provider) :
  let p := pagination provider in
  ((page = QUndefined \/ page = QString [] \/ forall s, page <> QString s) ->
   index p = Num 1 /\
   files p = paginate (provider_files provider) PAGE_SIZE (Num 1)) /\
  (forall s, page = QString s -> s <> [] ->
     index p = parseInt s /\
     (parseInt s = NaN ->
      index p = NaN /\ files p = [] /\ prev p = None /\ next p = None)).
Proof.
  apply get_index_inv in H as [scanned_files [_ ->]]. cbn zeta. split.
  - intros [->|[->|Hns]]; [now split | now split |].
    destruct page as [|s|l|]; try now split.
    exfalso. now apply (Hns s).
  - intros s -> Hs. destruct s as [|c s]; [contradiction|].
    cbn [page_index truthy make_provider pagination index files prev next].
    split; [reflexivity|]. intros ->.
    split; [reflexivity|]. unfold paginate, slice.
    cbn [num_sub num_add num_mul ToIntegerOrInfinity PAGE_SIZE].
    unfold relative_index. cbn [Z.ltb Z.compare].
    rewrite Z.sub_diag. cbn. repeat split.
Qed.

Lemma get_index_page_default_witness :
  index (pagination (make_provider [lit "a.png"] (Num 1))) = Num 1 /\
  files (pagination (make_provider [lit "a.png"] (Num 1))) =
  paginate [lit "a.png"] PAGE_SIZE (Num 1).
Proof.
  assert (H : get_index app_dir QUndefined fs_one =
              Ok (make_provider [lit "a.png"] (Num 1)))
    by (vm_compute; reflexivity).
  destruct (get_index_page_default _ _ _ _ H) as [Hdefault _].
  apply Hdefault. left. reflexivity.
Defined.

(** C7 fails as stated: for [page=abc] the index is NaN, not 1, and the
    page served is empty although the storage holds an image. *)
Lemma non_numeric_page_is_not_first_page :
  exists provider,
    get_index app_dir (QString (lit "abc")) fs_one = Ok provider /\
    index (pagination provider) = NaN /\
    index (pagination provider) <> Num 1 /\
    files (pagination provider) = [] /\
    paginate (provider_files provider) PAGE_SIZE (Num 1) = [lit "a.png"].
Proof.
  exists (make_provider [lit "a.png"] NaN).
  split; [vm_compute; reflexivity|].
  split; [reflexivity|].
  split; [discriminate|].
  split; vm_compute; reflexivity.
Qed.

(* ================================================================== *)
(** * The access gate *)
(* ================================================================== *)

Lemma header_set_found (name value : jsstring)
      (hs : list (jsstring * jsstring)) :
  find (fun kv => same_header (fst kv) name)
       (filter (fun kv => negb (same_header (fst kv) name)) hs
        ++ [(name, value)]) = Some (name, value).
Proof.
  induction hs as [|[k v] hs IH]; cbn [filter app find fst].
  - unfold same_header. now rewrite str_eqb_refl.
  - destruct (same_header k name) eqn:E; cbn [negb]; [exact IH|].
    cbn [app find fst]. now rewrite E.
Qed.

Section AccessGate.

Variable __dirname : path.
Variable SITE_BASEURL ADMIN_USER ADMIN_PASS : jsstring.
Variable UPLOAD_LIMIT_MB : Z.
Variable hmac : jsstring -> jsstring -> jsstring.
Variable key : jsstring.
Variable multer_array :
  (jsstring -> Z -> result jsstring) ->
  (jsstring -> list filter_callback) ->
  Z -> Z -> path ->
  list upload_file -> Z -> FS -> FS * option upload_error.

Local Abbreviation compare := (compare hmac key).
Local Abbreviation checkAuth := (checkAuth ADMIN_USER ADMIN_PASS hmac key).
Local Abbreviation denied := (denied ADMIN_USER ADMIN_PASS hmac key).
Local Abbreviation post_upload :=
  (post_upload __dirname SITE_BASEURL ADMIN_USER ADMIN_PASS UPLOAD_LIMIT_MB
               hmac key multer_array).
Local Abbreviation delete_delete :=
  (delete_delete __dirname ADMIN_USER ADMIN_PASS hmac key).
Local Abbreviation put_url2image :=
  (put_url2image __dirname SITE_BASEURL ADMIN_USER ADMIN_PASS hmac key).

Lemma bufferEqual_refl (a : jsstring) : bufferEqual a a = true.
Proof.
  unfold bufferEqual. now rewrite Nat.eqb_refl, str_eqb_refl.
Qed.

(** The comparison of tsscmp is string equality, whatever the keyed hash. *)
Lemma compare_eq (a b : jsstring) : compare a b = true <-> a = b.
Proof.
  unfold compare. rewrite andb_true_iff, str_eqb_eq. split.
  - now intros [_ H].
  - intros ->. split; [apply bufferEqual_refl | reflexivity].
Qed.

Lemma checkAuth_iff (user pass : jsstring) :
  checkAuth user pass = true <-> user = ADMIN_USER /\ pass = ADMIN_PASS.
Proof.
  unfold checkAuth. rewrite !andb_true_r, andb_true_iff, !compare_eq.
  tauto.
Qed.

Lemma checkAuth_false_iff (user pass : jsstring) :
  checkAuth user pass = false <-> ~ (user = ADMIN_USER /\ pass = ADMIN_PASS).
Proof.
  rewrite <- checkAuth_iff. destruct (checkAuth user pass); split;
    congruence.
Qed.

Lemma denied_iff (c : credentials) :
  denied c = true <->
  c = None \/
  exists user pass, c = Some (user, pass) /\
                    ~ (user = ADMIN_USER /\ pass = ADMIN_PASS).
Proof.
  destruct c as [[user pass]|]; cbn [denied].
  - rewrite negb_true_iff, checkAuth_false_iff. split.
    + intro H. right. now exists user, pass.
    + intros [H|(u & p & E & H)]; [discriminate|]. now injection E as -> ->.
  - split; [now left | reflexivity].
Qed.

Lemma access_denied_turned_away (res : Res) (fs : FS) :
  sent res = None -> turned_away fs (respond (access_denied res) fs).
Proof.
  intro Hres. unfold turned_away, response_status, response_header,
    access_denied, respond, end_, setHeader, status.
  cbn [h_res h_fs h_next sent statusCode headers]. rewrite Hres.
  cbn [sent option_map w_status w_headers statusCode headers].
  rewrite header_set_found. cbn [option_map snd].
  repeat split. exists challenge. split; reflexivity.
Qed.

(** C4. The access gate accepts a name and password exactly when the name
    is [ADMIN_USER] and the password is [ADMIN_PASS]; a pair that differs
    from the configured one in a single character of either field is
    rejected; and a request rejected by the gate is answered 401 by each
    gated operation. *)
Theorem checkAuth_exact (user pass : jsstring) :
  (checkAuth user pass = true <-> user = ADMIN_USER /\ pass = ADMIN_PASS) /\
  (forall front back c d, c <> d ->
     (user = front ++ c :: back -> ADMIN_USER = front ++ d :: back ->
      checkAuth user pass = false) /\
     (pass = front ++ c :: back -> ADMIN_PASS = front ++ d :: back ->
      checkAuth user pass = false)) /\
  (checkAuth user pass = false ->
   forall parts fileName url remote uuid now fs,
     response_status
       (post_upload (Some (user, pass)) parts now fs fresh_res) = Some 401 /\
     response_status
       (delete_delete (Some (user, pass)) fileName fs fresh_res) = Some 401 /\
     response_status
       (put_url2image (Some (user, pass)) url remote uuid now fs fresh_res)
     = Some 401).
Proof.
  split; [apply checkAuth_iff|]. split.
  - intros front back c d Hcd. split; intros Hu Ha;
      apply checkAuth_false_iff; intros [E1 E2];
      rewrite Hu, Ha in *; clear Hu Ha.
    + apply app_inv_head in E1. congruence.
    + apply app_inv_head in E2. congruence.
  - intros Hrej parts fileName url remote uuid now fs.
    unfold post_upload, delete_delete, put_url2image.
    cbn [denied]. rewrite Hrej. cbn [negb].
    repeat split; reflexivity.
Qed.

(** C6. When the credentials are missing or are not the configured pair,
    each gated operation (upload, delete, fetch from a URL) answers 401
    with a [WWW-Authenticate] header holding a [Basic] challenge, leaves
    the file system as it was, and does not pass the request on. *)
Theorem gated_operations_turn_away (c : credentials) (res : Res)
  (parts : list upload_file) (fileName url : query_value)
  (remote : result remote_response) (uuid : jsstring) (now : Z) (fs : FS)
  (Hres : sent res = None)
  (Hc : c = None \/
        exists user pass, c = Some (user, pass) /\
                          ~ (user = ADMIN_USER /\ pass = ADMIN_PASS)) :
  turned_away fs (post_upload c parts now fs res) /\
  turned_away fs (delete_delete c fileName fs res) /\
  turned_away fs (put_url2image c url remote uuid now fs res).
Proof.
  apply denied_iff in Hc.
  unfold post_upload, delete_delete, put_url2image.
  rewrite Hc.
  repeat split; apply access_denied_turned_away; exact Hres.
Qed.

End AccessGate.

Lemma checkAuth_exact_witness :
  checkAuth sample_user sample_pass sample_hmac sample_key
            sample_user (lit "fob") = false /\
  response_status
    (delete_delete app_dir sample_user sample_pass sample_hmac sample_key
                   (Some (sample_user, lit "fob")) (QString (lit "a.png"))
                   fs_one fresh_res) = Some 401.
Proof.
  destruct (checkAuth_exact app_dir sample_baseurl sample_user sample_pass 4
                            sample_hmac sample_key sample_multer
                            sample_user (lit "fob")) as (_ & Hone & H401).
  assert (Hrej : checkAuth sample_user sample_pass sample_hmac sample_key
                           sample_user (lit "fob") = false).
  { apply (Hone (lit "fo") [] 98%N 111%N);
      [discriminate | reflexivity | reflexivity]. }
  split; [exact Hrej|].
  apply (H401 Hrej [] (QString (lit "a.png")) QUndefined (Err AxiosError)
              sample_uuid sample_now fs_one).
Defined.

Lemma gated_operations_turn_away_witness :
  turned_away fs_one
    (post_upload app_dir sample_baseurl sample_user sample_pass 4
                 sample_hmac sample_key sample_multer
                 None [] sample_now fs_one fresh_res) /\
  turned_away fs_one
    (delete_delete app_dir sample_user sample_pass sample_hmac sample_key
                   None (QString (lit "a.png")) fs_one fresh_res) /\
  turned_away fs_one
    (put_url2image app_dir sample_baseurl sample_user sample_pass
                   sample_hmac sample_key
                   None (QString (lit "http://example.com/x.png"))
                   (Err AxiosError) sample_uuid sample_now fs_one fresh_res).
Proof.
  apply (gated_operations_turn_away
           app_dir sample_baseurl sample_user sample_pass 4
           sample_hmac sample_key sample_multer None fresh_res).
  - reflexivity.
  - left. reflexivity.
Defined.

(* ================================================================== *)
(** * Timestamps *)
(* ================================================================== *)

Lemma all_from_spec (count : nat) (f : Z -> bool) :
  forall start,
    all_from count start f = true ->
    forall z, start <= z < start + Z.of_nat count -> f z = true.
Proof.
  induction count as [|k IH]; intros start H z Hz; [lia|].
  cbn [all_from] in H. apply andb_true_iff in H as [Hstart Hrest].
  destruct (Z.eq_dec z start) as [->|Hne]; [exact Hstart|].
  apply (IH (start + 1)); [exact Hrest | lia].
Qed.

Lemma all_below_Z (bound : Z) (f : Z -> bool) :
  all_below bound f = true ->
  forall z, 0 <= z < bound -> f z = true.
Proof.
  intros H z Hz. apply (all_from_spec _ f 0 H). lia.
Qed.

Lemma zeroFill_4 (y : Z) : 0 <= y < 10000 -> length (zeroFill y 4) = 4%nat.
Proof.
  intro H. apply Nat.eqb_eq.
  apply (all_below_Z 10000
           (fun y => Nat.eqb (length (zeroFill y 4)) 4)); [|exact H].
  vm_compute. reflexivity.
Qed.

Lemma zeroFill_2 (v : Z) : 0 <= v < 100 -> length (zeroFill v 2) = 2%nat.
Proof.
  intro H. apply Nat.eqb_eq.
  apply (all_below_Z 100
           (fun v => Nat.eqb (length (zeroFill v 2)) 2)); [|exact H].
  vm_compute. reflexivity.
Qed.

Lemma era_day_ok_all (doe : Z) : 0 <= doe < 146097 -> era_day_ok doe = true.
Proof.
  apply (all_below_Z 146097 era_day_ok). vm_compute. reflexivity.
Qed.

(** The date of a day is the date of its day of the era, moved by the era. *)
Lemma civil_from_days_era (z : Z) :
  civil_from_days z =
  let '(y, m, d) := civil_from_days ((z + 719468) mod 146097 - 719468) in
  (y + (z + 719468) / 146097 * 400, m, d).
Proof.
  unfold civil_from_days.
  set (doe := (z + 719468) mod 146097).
  assert (Hdoe : 0 <= doe < 146097) by (apply Z.mod_pos_bound; lia).
  replace (doe - 719468 + 719468) with doe by lia.
  rewrite (Z.mod_small doe 146097) by exact Hdoe.
  rewrite (Z.div_small doe 146097) by exact Hdoe.
  cbv zeta. f_equal. f_equal. lia.
Qed.

Lemma civil_from_days_bounds (z : Z) :
  0 <= z < 2932897 ->
  let '(y, m, d) := civil_from_days z in
  0 <= y < 10000 /\ 1 <= m <= 12 /\ 1 <= d <= 31.
Proof.
  intro Hz. rewrite civil_from_days_era.
  set (doe := (z + 719468) mod 146097).
  set (era := (z + 719468) / 146097).
  assert (Hdoe : 0 <= doe < 146097) by (apply Z.mod_pos_bound; lia).
  assert (Hz' : z + 719468 = 146097 * era + doe)
    by (apply Z.div_mod; lia).
  pose proof (era_day_ok_all doe Hdoe) as Hok. unfold era_day_ok in Hok.
  destruct (civil_from_days (doe - 719468)) as [[y m] d].
  repeat (apply andb_true_iff in Hok as [Hok ?]).
  assert (Hlate : 146037 <= doe \/ y <= 399).
  { match goal with
    | H : (_ || _) = true |- _ => apply orb_true_iff in H as [H|H]
    end; [left|right]; lia. }
  assert (4 <= era <= 24) by lia.
  lia.
Qed.

Lemma decimal_digits_are_digits (fuel : nat) :
  forall n acc,
    forallb is_digit acc = true ->
    forallb is_digit (decimal_digits fuel n acc) = true.
Proof.
  induction fuel as [|fuel IH]; intros n acc Hacc; [exact Hacc|].
  cbn [decimal_digits].
  assert (Hd : is_digit (Z.to_N (48 + n mod 10)) = true).
  { pose proof (Z.mod_pos_bound n 10 ltac:(lia)).
    unfold is_digit. apply andb_true_iff. split; apply N.leb_le; lia. }
  destruct (n <? 10).
  - cbn [forallb]. now rewrite Hd.
  - apply IH. cbn [forallb]. now rewrite Hd.
Qed.

Lemma zeroFill_digits (n : Z) (width : nat) :
  forallb is_digit (zeroFill n width) = true.
Proof.
  unfold zeroFill. rewrite forallb_app. apply andb_true_iff. split.
  - induction (width - length (decimal n))%nat as [|k IH]; [reflexivity|].
    cbn [repeat forallb]. exact IH.
  - apply decimal_digits_are_digits. reflexivity.
Qed.

(** A timestamp is made of decimal digits. *)
Lemma moment_format_digits (now : Z) :
  forallb is_digit (moment_format now) = true.
Proof.
  unfold moment_format.
  destruct (civil_from_days ((now / 1000 + TZ_OFFSET_SECONDS) / 86400))
    as [[y m] d].
  rewrite !forallb_app, !zeroFill_digits. reflexivity.
Qed.

(** Before the year 10000 a timestamp has fourteen characters. *)
Lemma moment_format_length (now : Z) :
  0 <= now < YEAR_10000 -> length (moment_format now) = 14%nat.
Proof.
  unfold YEAR_10000, moment_format, TZ_OFFSET_SECONDS. intro Hnow.
  set (secs := now / 1000 + 9 * 3600).
  assert (Hsecs : 0 <= secs < 253402300800).
  { unfold secs.
    assert (0 <= now / 1000 < 253402268400)
      by (split; [apply Z.div_pos; lia | apply Z.div_lt_upper_bound; lia]).
    lia. }
  assert (Hdays : 0 <= secs / 86400 < 2932897)
    by (split; [apply Z.div_pos; lia | apply Z.div_lt_upper_bound; lia]).
  pose proof (civil_from_days_bounds _ Hdays) as Hciv.
  destruct (civil_from_days (secs / 86400)) as [[y m] d].
  destruct Hciv as (Hy & Hm & Hd).
  pose proof (Z.mod_pos_bound secs 86400 ltac:(lia)) as Hsod.
  set (sod := secs mod 86400) in *.
  assert (0 <= sod / 3600 < 100)
    by (split; [apply Z.div_pos; lia | apply Z.div_lt_upper_bound; lia]).
  pose proof (Z.mod_pos_bound sod 3600 ltac:(lia)).
  assert (0 <= sod mod 3600 / 60 < 100)
    by (split; [apply Z.div_pos; lia | apply Z.div_lt_upper_bound; lia]).
  pose proof (Z.mod_pos_bound sod 60 ltac:(lia)).
  rewrite !length_app, zeroFill_4, !zeroFill_2 by lia. reflexivity.
Qed.

(** A timestamp has the resolution of a second. *)
Lemma moment_format_seconds (now now' : Z) :
  now / 1000 = now' / 1000 -> moment_format now = moment_format now'.
Proof. unfold moment_format. now intros ->. Qed.

(* ================================================================== *)
(** * File names *)
(* ================================================================== *)

Lemma split_nonempty (sep : N) (s : jsstring) : split sep s <> [].
Proof.
  destruct s as [|c t]; cbn [split]; [discriminate|].
  destruct (N.eqb c sep); [discriminate|].
  destruct (split sep t); discriminate.
Qed.

Lemma split_no_sep (sep : N) (s : jsstring) :
  ~ In sep s -> split sep s = [s].
Proof.
  induction s as [|c t IH]; intro H; [reflexivity|].
  cbn [split]. destruct (N.eqb c sep) eqn:E.
  - apply N.eqb_eq in E. subst c. exfalso. apply H. now left.
  - rewrite IH; [reflexivity|]. intro Hin. apply H. now right.
Qed.

Lemma split_app_sep (sep : N) (a b : jsstring) :
  ~ In sep a -> split sep (a ++ sep :: b) = a :: split sep b.
Proof.
  induction a as [|c t IH]; intro H.
  - cbn [app split]. now rewrite N.eqb_refl.
  - cbn [app split]. destruct (N.eqb c sep) eqn:E.
    + apply N.eqb_eq in E. subst c. exfalso. apply H. now left.
    + rewrite IH; [reflexivity|]. intro Hin. apply H. now right.
Qed.

(** A string with a separator, cut at its first occurrence. *)
Lemma first_occurrence (sep : N) (s : jsstring) :
  In sep s -> exists a b, s = a ++ sep :: b /\ ~ In sep a.
Proof.
  induction s as [|c t IH]; intro H; [contradiction|].
  destruct (N.eq_dec c sep) as [->|Hne].
  - exists [], t. split; [reflexivity | intros []].
  - destruct H as [H|H]; [contradiction|].
    destruct (IH H) as (a & b & -> & Ha).
    exists (c :: a), b. split; [reflexivity|].
    intros [E|Hin]; [congruence | contradiction].
Qed.

Lemma match_dot_rest_no_dot (s : jsstring) :
  ~ In char_dot s -> match_dot_rest s = None.
Proof.
  induction s as [|c t IH]; intro H; [reflexivity|].
  cbn [match_dot_rest]. destruct (N.eqb c char_dot) eqn:E.
  - apply N.eqb_eq in E. subst c. exfalso. apply H. now left.
  - cbn [andb]. apply IH. intro Hin. apply H. now right.
Qed.

Lemma match_dot_rest_has_dot (s m : jsstring) :
  match_dot_rest s = Some m -> In char_dot s.
Proof.
  intro H. destruct (in_dec N.eq_dec char_dot s) as [Hin|Hnot];
    [exact Hin|].
  rewrite (match_dot_rest_no_dot s Hnot) in H. discriminate.
Qed.

Lemma match_dot_rest_first_dot (base ext : jsstring) :
  ~ In char_dot base -> no_line_terminator ext = true ->
  match_dot_rest (base ++ char_dot :: ext) = Some (char_dot :: ext).
Proof.
  intros Hbase Hext. induction base as [|c t IH].
  - cbn [app match_dot_rest]. rewrite N.eqb_refl. cbn [andb].
    unfold no_line_terminator in Hext. now rewrite Hext.
  - cbn [app match_dot_rest]. destruct (N.eqb c char_dot) eqn:E.
    + apply N.eqb_eq in E. subst c. exfalso. apply Hbase. now left.
    + cbn [andb]. apply IH. intro Hin. apply Hbase. now right.
Qed.

Lemma storage_filename_first_dot (base ext : jsstring) (now : Z) :
  ~ In char_dot base -> no_line_terminator ext = true ->
  storage_filename (base ++ char_dot :: ext) now =
  Ok (base ++ lit "-" ++ moment_format now ++ char_dot :: ext).
Proof.
  intros Hbase Hext. unfold storage_filename.
  rewrite (match_dot_rest_first_dot base ext Hbase Hext).
  rewrite (split_app_sep char_dot base ext Hbase). reflexivity.
Qed.

Lemma spec_upload_filename_one_dot (base ext : jsstring) (now : Z) :
  ~ In char_dot base -> ~ In char_dot ext ->
  spec_upload_filename (base ++ char_dot :: ext) now =
  base ++ lit "-" ++ moment_format now ++ char_dot :: ext.
Proof.
  intros Hbase Hext. unfold spec_upload_filename, spec_base, spec_ext,
    extension.
  rewrite (split_app_sep char_dot base ext Hbase), (split_no_sep char_dot ext Hext).
  reflexivity.
Qed.

Lemma content_type_ext_subtype (type subtype : jsstring) :
  ~ In char_slash type -> ~ In char_slash subtype ->
  content_type_ext (type ++ char_slash :: subtype) = subtype.
Proof.
  intros Htype Hsub. unfold content_type_ext.
  rewrite (split_app_sep char_slash type subtype Htype),
    (split_no_sep char_slash subtype Hsub). reflexivity.
Qed.

(** C10. For an original name without a dot the file name generator ends
    in the TypeError of reading [match(...)[0]] on null; it produces a name
    only for original names that contain a dot, and does produce one for
    every original name that contains a dot and no line terminator. *)
Theorem storage_filename_needs_dot (originalname : jsstring) (now : Z) :
  (~ In char_dot originalname ->
   storage_filename originalname now = Err TypeError) /\
  (forall name, storage_filename originalname now = Ok name ->
                In char_dot originalname) /\
  (In char_dot originalname -> no_line_terminator originalname = true ->
   exists name, storage_filename originalname now = Ok name).
Proof.
  split; [|split].
  - intro H. unfold storage_filename.
    now rewrite (match_dot_rest_no_dot originalname H).
  - intros name H. unfold storage_filename in H.
    destruct (match_dot_rest originalname) as [m|] eqn:E; [|discriminate].
    exact (match_dot_rest_has_dot originalname m E).
  - intros Hdot Hlt.
    destruct (first_occurrence char_dot originalname Hdot)
      as (base & ext & -> & Hbase).
    unfold no_line_terminator in Hlt. rewrite forallb_app in Hlt.
    apply andb_true_iff in Hlt as [_ Hlt]. cbn [forallb] in Hlt.
    apply andb_true_iff in Hlt as [_ Hlt].
    eexists. now apply storage_filename_first_dot.
Qed.

Lemma storage_filename_needs_dot_witness :
  storage_filename (lit "README") sample_now = Err TypeError /\
  exists name, storage_filename (lit "photo.png") sample_now = Ok name.
Proof.
  split.
  - apply (storage_filename_needs_dot (lit "README") sample_now).
    intro H. vm_compute in H. intuition discriminate.
  - apply (storage_filename_needs_dot (lit "photo.png") sample_now).
    + vm_compute. intuition.
    + reflexivity.
Defined.

(** C8, as the code has it.  An uploaded file whose original name is
    [base.ext], [base] without a dot and [ext] without a line terminator, is
    stored as [base-TIMESTAMP.ext]: the name is cut at its first dot, so
    that [ext] holds every later dot; for a name with a single dot this is
    the base without the extension, a dash, the timestamp and the
    extension.  A fetched image whose content type is [type/subtype] is
    stored as [uuid-TIMESTAMP.subtype].  The timestamp is made of digits,
    fourteen of them before the year 10000 (year, month, day, hour, minute,
    second in local time), and two instants of the same second have the same
    timestamp. *)
Theorem generated_file_names
  (base ext uuid type subtype : jsstring) (now : Z)
  (Hbase : ~ In char_dot base) (Hext : no_line_terminator ext = true)
  (Htype : ~ In char_slash type) (Hsub : ~ In char_slash subtype) :
  storage_filename (base ++ char_dot :: ext) now =
  Ok (base ++ lit "-" ++ moment_format now ++ char_dot :: ext) /\
  (~ In char_dot ext ->
   storage_filename (base ++ char_dot :: ext) now =
   Ok (spec_upload_filename (base ++ char_dot :: ext) now)) /\
  destFileName uuid now (type ++ char_slash :: subtype) =
  uuid ++ lit "-" ++ moment_format now ++ lit "." ++ subtype /\
  forallb is_digit (moment_format now) = true /\
  (0 <= now < YEAR_10000 -> length (moment_format now) = 14%nat) /\
  (forall now', now / 1000 = now' / 1000 ->
                moment_format now = moment_format now') /\
  moment_format 1700000000000 = lit "20231115071320".
Proof.
  split; [now apply storage_filename_first_dot|].
  split.
  { intro Hone. rewrite spec_upload_filename_one_dot by assumption.
    now apply storage_filename_first_dot. }
  split.
  { unfold destFileName. now rewrite content_type_ext_subtype. }
  split; [apply moment_format_digits|].
  split; [apply moment_format_length|].
  split; [apply moment_format_seconds|].
  vm_compute. reflexivity.
Qed.

Lemma generated_file_names_witness :
  storage_filename (lit "archive" ++ char_dot :: lit "tar.gz") sample_now =
  Ok (lit "archive" ++ lit "-" ++ moment_format sample_now ++
      char_dot :: lit "tar.gz") /\
  destFileName sample_uuid sample_now (lit "image" ++ char_slash :: lit "png") =
  sample_uuid ++ lit "-" ++ moment_format sample_now ++ lit "." ++ lit "png" /\
  length (moment_format sample_now) = 14%nat.
Proof.
  destruct (generated_file_names (lit "archive") (lit "tar.gz") sample_uuid
                                 (lit "image") (lit "png") sample_now)
    as (Hup & _ & Hdest & _ & Hlen & _).
  - intro H. vm_compute in H. intuition discriminate.
  - reflexivity.
  - intro H. vm_compute in H. intuition discriminate.
  - intro H. vm_compute in H. intuition discriminate.
  - split; [exact Hup|]. split; [exact Hdest|].
    apply Hlen. unfold sample_now, YEAR_10000. lia.
Defined.

(** C8 fails as stated: [a.b.png] is stored as [a-TIMESTAMP.b.png], not as
    the base without the extension, the timestamp and the extension, which
    is [a.b-TIMESTAMP.png]. *)
Lemma upload_name_cut_at_first_dot :
  storage_filename (lit "a.b.png") sample_now =
  Ok (lit "a-20231115071320.b.png") /\
  spec_upload_filename (lit "a.b.png") sample_now =
  lit "a.b-20231115071320.png" /\
  storage_filename (lit "a.b.png") sample_now <>
  Ok (spec_upload_filename (lit "a.b.png") sample_now).
Proof.
  split; [vm_compute; reflexivity|].
  split; [vm_compute; reflexivity|].
  vm_compute. discriminate.
Qed.

(* ================================================================== *)
(** * Sorting *)
(* ================================================================== *)

Section Sorting.

Context {A : Type}.
Variable key : A -> Z.

Lemma sort_insert_perm (x : A) (s : list A) :
  Permutation (sort_insert (descending key) x s) (x :: s).
Proof.
  induction s as [|y s IH]; cbn [sort_insert]; [reflexivity|].
  destruct (descending key x y <=? 0); [reflexivity|].
  rewrite IH. apply perm_swap.
Qed.

Lemma sort_perm (l : list A) : Permutation (sort (descending key) l) l.
Proof.
  induction l as [|x l IH]; cbn [sort]; [reflexivity|].
  rewrite sort_insert_perm. now apply perm_skip.
Qed.

Lemma sort_insert_sorted (x : A) (s : list A) :
  StronglySorted (fun a b => key a >= key b) s ->
  StronglySorted (fun a b => key a >= key b) (sort_insert (descending key) x s).
Proof.
  induction s as [|y s IH]; intro Hs; cbn [sort_insert].
  - constructor; constructor.
  - inversion Hs as [|? ? Hs' Hy]; subst.
    destruct (descending key x y <=? 0) eqn:E; unfold descending in E.
    + apply Z.leb_le in E. constructor; [exact Hs|].
      constructor; [lia|].
      eapply Forall_impl; [|exact Hy]. cbn. intros; lia.
    + apply Z.leb_gt in E. constructor; [now apply IH|].
      eapply Permutation_Forall;
        [apply Permutation_sym, sort_insert_perm|].
      constructor; [lia | exact Hy].
Qed.

Lemma sort_sorted (l : list A) :
  StronglySorted (fun a b => key a >= key b) (sort (descending key) l).
Proof.
  induction l as [|x l IH]; cbn [sort]; [constructor|].
  now apply sort_insert_sorted.
Qed.

(** Stability: elements of equal key keep their order. *)
Lemma sort_insert_stable (t : Z) (x : A) (s : list A) :
  filter (fun a => key a =? t) (sort_insert (descending key) x s) =
  filter (fun a => key a =? t) (x :: s).
Proof.
  induction s as [|y s IH]; cbn [sort_insert]; [reflexivity|].
  destruct (descending key x y <=? 0) eqn:E; [reflexivity|].
  apply Z.leb_gt in E. unfold descending in E.
  cbn [filter] in *. rewrite IH.
  destruct (key x =? t) eqn:Ex; [|reflexivity].
  apply Z.eqb_eq in Ex.
  destruct (key y =? t) eqn:Ey; [|reflexivity].
  apply Z.eqb_eq in Ey. lia.
Qed.

Lemma sort_stable (t : Z) (l : list A) :
  filter (fun a => key a =? t) (sort (descending key) l) =
  filter (fun a => key a =? t) l.
Proof.
  induction l as [|x l IH]; cbn [sort]; [reflexivity|].
  rewrite sort_insert_stable. cbn [filter]. now rewrite IH.
Qed.

(** With distinct keys the order is strict. *)
Lemma sorted_strict (l : list A) :
  StronglySorted (fun a b => key a >= key b) l ->
  NoDup (map key l) ->
  StronglySorted (fun a b => key a > key b) l.
Proof.
  induction 1 as [|x l Hl IH Hx]; intro Hnd; [constructor|].
  cbn [map] in Hnd. inversion Hnd as [|? ? Hnotin Hnd']; subst.
  constructor; [now apply IH|].
  rewrite Forall_forall in *. intros y Hy.
  specialize (Hx y Hy).
  assert (key y <> key x); [|lia].
  intro E. apply Hnotin. rewrite <- E. now apply in_map.
Qed.

End Sorting.

(** The sort only looks at the keys of the elements it is given. *)
Lemma sort_insert_ext {A : Type} (k1 k2 : A -> Z) (x : A) (s : list A) :
  k1 x = k2 x -> (forall a, In a s -> k1 a = k2 a) ->
  sort_insert (descending k1) x s = sort_insert (descending k2) x s.
Proof.
  intros Hx. induction s as [|y s IH]; intro Hs; cbn [sort_insert];
    [reflexivity|].
  unfold descending at 1 3. rewrite Hx, (Hs y) by now left.
  destruct (k2 y - k2 x <=? 0); [reflexivity|].
  f_equal. apply IH. intros a Ha. apply Hs. now right.
Qed.

Lemma sort_ext {A : Type} (k1 k2 : A -> Z) (l : list A) :
  (forall a, In a l -> k1 a = k2 a) ->
  sort (descending k1) l = sort (descending k2) l.
Proof.
  induction l as [|x l IH]; intro H; cbn [sort]; [reflexivity|].
  rewrite IH by (intros a Ha; apply H; now right).
  apply sort_insert_ext; [apply H; now left|].
  intros a Ha. apply H. right.
  eapply Permutation_in; [apply sort_perm | exact Ha].
Qed.

(** Sorting stamped records is sorting the names by their stamps. *)
Lemma sort_insert_map {A B : Type} (f : A -> B) (k : B -> Z)
      (x : A) (s : list A) :
  sort_insert (descending k) (f x) (map f s) =
  map f (sort_insert (descending (fun a => k (f a))) x s).
Proof.
  induction s as [|y s IH]; cbn [sort_insert map]; [reflexivity|].
  unfold descending at 1 3.
  destruct (k (f y) - k (f x) <=? 0); [reflexivity|].
  cbn [map]. f_equal. exact IH.
Qed.

Lemma sort_map {A B : Type} (f : A -> B) (k : B -> Z) (l : list A) :
  sort (descending k) (map f l) =
  map f (sort (descending (fun a => k (f a))) l).
Proof.
  induction l as [|x l IH]; cbn [sort map]; [reflexivity|].
  rewrite IH. apply sort_insert_map.
Qed.

(* ================================================================== *)
(** * The file system: basic facts *)
(* ================================================================== *)

Lemma plain_name_no_slash (name : jsstring) :
  plain_name name = true -> ~ In char_slash name.
Proof.
  unfold plain_name. rewrite !andb_true_iff. intros [_ H] Hin.
  rewrite forallb_forall in H. specialize (H _ Hin).
  now rewrite N.eqb_refl in H.
Qed.

Lemma plain_name_intro (name : jsstring) :
  name <> [] -> name <> lit "." -> name <> lit ".." ->
  ~ In char_slash name -> plain_name name = true.
Proof.
  intros H0 H1 H2 Hs. unfold plain_name.
  rewrite !andb_true_iff, !negb_true_iff, !str_eqb_neq, forallb_forall.
  repeat split; try assumption.
  intros c Hc. apply negb_true_iff, N.eqb_neq. intros ->. contradiction.
Qed.

Lemma normalize_plain (stack : list jsstring) (name : jsstring) :
  plain_name name = true ->
  normalize stack (split char_slash name) = rev stack ++ [name].
Proof.
  intro H. rewrite (split_no_sep _ _ (plain_name_no_slash _ H)).
  unfold plain_name in H. rewrite !andb_true_iff, !negb_true_iff in H.
  destruct H as [[[H0 H1] H2] _].
  cbn [normalize]. now rewrite H0, H1, H2.
Qed.

Lemma path_join_plain (base : path) (name : jsstring) :
  plain_name name = true -> path_join base name = base ++ [name].
Proof.
  intro H. unfold path_join. rewrite normalize_plain by exact H.
  now rewrite rev_involutive.
Qed.

Lemma path_resolve_plain (base : path) (name : jsstring) :
  plain_name name = true -> path_resolve base name = base ++ [name].
Proof.
  intro H. unfold path_resolve.
  destruct name as [|c t] eqn:E.
  - discriminate H.
  - rewrite <- E in *.
    assert (Hc : c <> 47%N).
    { intros ->. apply (plain_name_no_slash _ H). rewrite E. now left. }
    rewrite normalize_plain by exact H. rewrite rev_involutive.
    destruct c as [|p]; [reflexivity|].
    do 6 (destruct p as [p|p|]; try reflexivity); congruence.
Qed.

Lemma storage_dir_eq (dirname : path) :
  storage_dir dirname = dirname ++ [lit "storage"].
Proof. unfold storage_dir. now apply path_join_plain. Qed.

Lemma entry_name_spec (dir p : path) (name : jsstring) :
  entry_name dir p = Some name <-> p = dir ++ [name].
Proof.
  revert p. induction dir as [|d dir IH]; intros p.
  - destruct p as [|s [|s' p]]; cbn; split; intro H;
      try discriminate; try congruence.
  - destruct p as [|s p]; cbn [entry_name app].
    + split; discriminate.
    + destruct (str_eqb d s) eqn:E.
      * apply str_eqb_eq in E. subst s. rewrite IH. split; congruence.
      * apply str_eqb_neq in E. split; [discriminate | congruence].
Qed.

Lemma in_entries (dir : path) (fs : FS) (name : jsstring) :
  In name (entries dir fs) <->
  exists n, In n fs /\ n_path n = dir ++ [name].
Proof.
  induction fs as [|n fs IH]; cbn [entries].
  - split; [contradiction | intros (n & [] & _)].
  - destruct (entry_name dir (n_path n)) as [m|] eqn:E.
    + apply entry_name_spec in E. cbn [In]. rewrite IH. split.
      * intros [->|(n' & Hin & Hp)]; [exists n | exists n'];
          (split; [cbn [In]; auto | assumption]).
      * intros (n' & [->|Hin] & Hp).
        -- left. rewrite E in Hp. now apply app_inj_tail in Hp.
        -- right. now exists n'.
    + rewrite IH. split.
      * intros (n' & Hin & Hp). exists n'. split; [now right | exact Hp].
      * intros (n' & [->|Hin] & Hp); [|now exists n'].
        apply entry_name_spec in Hp. congruence.
Qed.

Lemma entries_app (dir : path) (fs1 fs2 : FS) :
  entries dir (fs1 ++ fs2) = entries dir fs1 ++ entries dir fs2.
Proof.
  induction fs1 as [|n fs1 IH]; cbn [app entries]; [reflexivity|].
  destruct (entry_name dir (n_path n)); cbn [app]; now rewrite IH.
Qed.

Lemma lookup_Some (fs : FS) (p : path) (n : node) :
  lookup fs p = Some n -> In n fs /\ n_path n = p.
Proof.
  unfold lookup. intro H. apply find_some in H as [Hin Hp].
  now apply path_eqb_eq in Hp.
Qed.

Lemma lookup_None (fs : FS) (p : path) :
  lookup fs p = None <-> forall n, In n fs -> n_path n <> p.
Proof.
  unfold lookup. split.
  - intros H n Hin E. apply (find_none _ _ H) in Hin.
    rewrite E, path_eqb_refl in Hin. discriminate.
  - intro H. destruct (find _ fs) as [n|] eqn:E; [|reflexivity].
    apply find_some in E as [Hin Hp]. apply path_eqb_eq in Hp.
    now elim (H n Hin).
Qed.

Lemma lookup_entry (dir : path) (fs : FS) (name : jsstring) :
  In name (entries dir fs) <-> exists n, lookup fs (dir ++ [name]) = Some n.
Proof.
  rewrite in_entries. split.
  - intros (n & Hin & Hp).
    destruct (lookup fs (dir ++ [name])) as [n'|] eqn:E; [now exists n'|].
    rewrite lookup_None in E. now elim (E n Hin).
  - intros [n H]. apply lookup_Some in H. now exists n.
Qed.

Lemma existsSync_entry (dir : path) (fs : FS) (name : jsstring) :
  existsSync fs (dir ++ [name]) = true <-> In name (entries dir fs).
Proof.
  rewrite lookup_entry. unfold existsSync.
  destruct (dir ++ [name]) as [|s p] eqn:E.
  - now destruct dir.
  - destruct (lookup fs (s :: p)) as [n|]; split; try discriminate.
    + intros _. now exists n.
    + reflexivity.
    + intros [n H]. discriminate.
Qed.

Lemma in_remove (fs : FS) (p : path) (n : node) :
  In n (remove fs p) <-> In n fs /\ n_path n <> p.
Proof.
  unfold remove. rewrite filter_In, negb_true_iff. split.
  - intros [Hin H]. split; [exact Hin|]. intro E.
    rewrite E, path_eqb_refl in H. discriminate.
  - intros [Hin H]. split; [exact Hin|].
    destruct (path_eqb (n_path n) p) eqn:E; [|reflexivity].
    apply path_eqb_eq in E. contradiction.
Qed.

Lemma lookup_remove (fs : FS) (p : path) : lookup (remove fs p) p = None.
Proof.
  apply lookup_None. intros n Hin. now apply in_remove in Hin.
Qed.

Lemma entries_plain (dir : path) (fs : FS) (name : jsstring) :
  wf_fs fs = true -> In name (entries dir fs) -> plain_name name = true.
Proof.
  intros Hwf Hin. apply in_entries in Hin as (n & Hn & Hp).
  unfold wf_fs in Hwf. rewrite forallb_forall in Hwf.
  specialize (Hwf n Hn). unfold plain_path in Hwf.
  rewrite Hp, forallb_app in Hwf.
  apply andb_true_iff in Hwf as [_ Hwf]. cbn in Hwf.
  now rewrite andb_true_r in Hwf.
Qed.

Lemma mapM_ok {A B : Type} (f : A -> result B) (g : A -> B) (l : list A) :
  (forall x, In x l -> f x = Ok (g x)) -> mapM f l = Ok (map g l).
Proof.
  induction l as [|x l IH]; intro H; [reflexivity|].
  cbn [mapM map]. rewrite (H x) by now left.
  cbn [bind]. rewrite IH by (intros y Hy; apply H; now right).
  reflexivity.
Qed.

(* ================================================================== *)
(** * The directory scanner *)
(* ================================================================== *)

(** The name passes the test of the regular expression exactly when it
    ends, ignoring case, with a dot and one of the alternatives. *)
Lemma ALLOWED_FORMATS_REGEX_test_spec (name : jsstring) :
  ALLOWED_FORMATS_REGEX_test name = true <->
  exists front alt,
    In alt ALLOWED_FORMATS_ALTERNATIVES /\
    lower name = front ++ char_dot :: alt.
Proof.
  unfold ALLOWED_FORMATS_REGEX_test. rewrite existsb_exists. split.
  - intros (alt & Hin & H). apply endsWith_app in H as [front H].
    now exists front, alt.
  - intros (front & alt & Hin & H). exists alt. split; [exact Hin|].
    apply endsWith_app. now exists front.
Qed.

(** On a well-formed file system whose storage directory exists, the scan
    is the stable sort, newest first, of the entries that pass the test. *)
Lemma readSyncImageFiles_eq (dirname : path) (fs : FS) :
  wf_fs fs = true ->
  is_directory fs (storage_dir dirname) = true ->
  readSyncImageFiles dirname fs =
  Ok (sort (descending (mtime_of dirname fs))
           (filter ALLOWED_FORMATS_REGEX_test
                   (entries (storage_dir dirname) fs))).
Proof.
  intros Hwf Hdir. unfold readSyncImageFiles, readdirSync.
  rewrite Hdir. cbn [bind].
  rewrite (mapM_ok _ (fun name => {| fileName := name;
                                     time := mtime_of dirname fs name |})).
  - cbn [bind]. f_equal.
    change (fun a b : scanned => time b - time a) with (descending time).
    rewrite sort_map, map_map. cbn [fileName]. rewrite map_id.
    reflexivity.
  - intros name Hin. apply filter_In in Hin as [Hin _].
    pose proof (entries_plain _ _ _ Hwf Hin) as Hplain.
    unfold mtime_of. unfold statSync.
    rewrite path_join_plain by exact Hplain.
    apply lookup_entry in Hin as [n Hn]. now rewrite Hn.
Qed.

(** C3, as the code has it.  On a well-formed file system whose storage
    directory exists the scanner returns a list of names such that: a name
    is in it exactly when it is an entry of the storage directory that
    ends, ignoring case, in [.gif], [.jpg], [.jpeg], [.tif], [.tiff],
    [.png], [.webp], [.bmp] or [.svg]; it is a rearrangement of those
    entries; last-modified times never increase along it, and strictly
    decrease when the times are pairwise distinct; entries of equal time
    keep the order of the directory listing; and a scan of any file system
    with the same listing and the same times returns the same list. *)
Theorem readSyncImageFiles_newest_first (dirname : path) (fs : FS)
  (Hwf : wf_fs fs = true)
  (Hdir : is_directory fs (storage_dir dirname) = true) :
  let listing := entries (storage_dir dirname) fs in
  let mtime := mtime_of dirname fs in
  exists files,
    readSyncImageFiles dirname fs = Ok files /\
    (forall name,
        In name files <->
        In name listing /\
        exists front alt,
          In alt ALLOWED_FORMATS_ALTERNATIVES /\
          lower name = front ++ char_dot :: alt) /\
    Permutation files (filter ALLOWED_FORMATS_REGEX_test listing) /\
    StronglySorted (fun a b => mtime a >= mtime b) files /\
    (NoDup (map mtime files) ->
     StronglySorted (fun a b => mtime a > mtime b) files) /\
    (forall t,
        filter (fun name => mtime name =? t) files =
        filter (fun name => mtime name =? t)
               (filter ALLOWED_FORMATS_REGEX_test listing)) /\
    (forall fs',
        wf_fs fs' = true ->
        is_directory fs' (storage_dir dirname) = true ->
        entries (storage_dir dirname) fs' = listing ->
        (forall name, In name listing ->
                      mtime_of dirname fs' name = mtime name) ->
        readSyncImageFiles dirname fs' = Ok files).
Proof.
  cbn zeta. eexists. split; [now apply readSyncImageFiles_eq|].
  split; [|split; [|split; [|split; [|split]]]].
  - intro name. rewrite <- ALLOWED_FORMATS_REGEX_test_spec, <- filter_In.
    split; apply Permutation_in;
      [|apply Permutation_sym]; apply sort_perm.
  - apply sort_perm.
  - apply sort_sorted.
  - apply sorted_strict, sort_sorted.
  - intro t. apply sort_stable.
  - intros fs' Hwf' Hdir' Hlist Htimes.
    rewrite readSyncImageFiles_eq, Hlist by assumption. f_equal.
    apply sort_ext. intros name Hin. apply Htimes.
    now apply filter_In in Hin.
Qed.

Lemma readSyncImageFiles_newest_first_witness :
  exists files,
    readSyncImageFiles app_dir fs_ties = Ok files /\
    StronglySorted
      (fun a b => mtime_of app_dir fs_ties a >= mtime_of app_dir fs_ties b)
      files.
Proof.
  destruct (readSyncImageFiles_newest_first app_dir fs_ties)
    as (files & Hscan & _ & _ & Hsorted & _).
  - reflexivity.
  - reflexivity.
  - exists files. split; [exact Hscan | exact Hsorted].
Defined.

(** C3 fails as stated: a [.tif] file is returned although [tif] is not in
    the allow-list of the specification, and two images modified in the
    same millisecond are not in strictly descending order. *)
Lemma scan_not_as_specified :
  (readSyncImageFiles app_dir fs_tif = Ok [lit "scan.tif"] /\
   spec_allowed (lit "scan.tif") = false /\
   ~ scan_as_specified app_dir fs_tif) /\
  (readSyncImageFiles app_dir fs_ties = Ok [lit "a.png"; lit "b.png"] /\
   mtime_of app_dir fs_ties (lit "a.png") =
   mtime_of app_dir fs_ties (lit "b.png") /\
   ~ scan_as_specified app_dir fs_ties).
Proof.
  split.
  - split; [vm_compute; reflexivity|]. split; [vm_compute; reflexivity|].
    intros (files & Hscan & Hexact & _).
    assert (E : files = [lit "scan.tif"])
      by (vm_compute in Hscan; now injection Hscan as <-).
    subst files.
    destruct (Hexact (lit "scan.tif")) as [H _].
    destruct H as [_ H]; [now left|]. vm_compute in H. discriminate.
  - split; [vm_compute; reflexivity|]. split; [vm_compute; reflexivity|].
    intros (files & Hscan & _ & Hsorted).
    assert (E : files = [lit "a.png"; lit "b.png"])
      by (vm_compute in Hscan; now injection Hscan as <-).
    subst files.
    inversion Hsorted as [|? ? _ Hall]; subst.
    inversion Hall as [|? ? Hlt _]; subst.
    vm_compute in Hlt. discriminate.
Qed.

Lemma mapM_stamped (fs : FS) (dir : path) (names : list jsstring) :
  forall stamped,
    mapM (fun name =>
            st <- statSync fs (path_join dir name) ;;
            Ok {| fileName := name; time := n_mtime st |}) names
    = Ok stamped ->
    map fileName stamped = names.
Proof.
  induction names as [|name names IH]; intros stamped H.
  - injection H as <-. reflexivity.
  - cbn [mapM] in H.
    destruct (statSync fs (path_join dir name)) as [st|e];
      [|discriminate]. cbn [bind] in H.
    destruct (mapM _ names) as [rest|e] eqn:E; [|discriminate].
    cbn [bind] in H. injection H as <-. cbn [map fileName].
    f_equal. now apply IH.
Qed.

(** Whatever the state of the file system, the scanner only returns
    entries of the storage directory. *)
Lemma readSyncImageFiles_in (dirname : path) (fs : FS)
      (files : list jsstring) (name : jsstring) :
  readSyncImageFiles dirname fs = Ok files ->
  In name files -> In name (entries (storage_dir dirname) fs).
Proof.
  unfold readSyncImageFiles, readdirSync. intros H Hin.
  destruct (is_directory fs (storage_dir dirname)).
  - cbn [bind] in H.
    destruct (mapM _ _) as [stamped|e] eqn:E; [|discriminate].
    cbn [bind] in H. injection H as <-.
    apply mapM_stamped in E.
    change (fun a b : scanned => time b - time a) with (descending time)
      in Hin.
    assert (Hin' : In name (map fileName stamped)).
    { eapply Permutation_in; [|exact Hin].
      apply Permutation_map, sort_perm. }
    rewrite E in Hin'. now apply filter_In in Hin'.
  - destruct (existsSync fs (storage_dir dirname)); discriminate.
Qed.

(* ================================================================== *)
(** * Delete and fetch *)
(* ================================================================== *)

Section Operations.

Variable __dirname : path.
Variable SITE_BASEURL ADMIN_USER ADMIN_PASS : jsstring.
Variable hmac : jsstring -> jsstring -> jsstring.
Variable key : jsstring.

Local Abbreviation storage := (storage_dir __dirname).
Local Abbreviation admin_credentials := (Some (ADMIN_USER, ADMIN_PASS)).
Local Abbreviation delete_delete :=
  (delete_delete __dirname ADMIN_USER ADMIN_PASS hmac key).
Local Abbreviation put_url2image :=
  (put_url2image __dirname SITE_BASEURL ADMIN_USER ADMIN_PASS hmac key).

Lemma admin_not_denied :
  denied ADMIN_USER ADMIN_PASS hmac key admin_credentials = false.
Proof.
  cbn [denied]. apply negb_false_iff. now apply checkAuth_iff.
Qed.

(** X21. The delete operation on a name that is a plain directory entry
    name (not empty, not [.] or [..], without a slash): 404 and no change
    when the storage directory has no such entry; 204 and the entry gone,
    also from every later scan, when it is a file of the storage
    directory. *)
Lemma delete_delete_plain (name : jsstring) (fs : FS) (res : Res) :
  sent res = None -> plain_name name = true ->
  let h := delete_delete admin_credentials (QString name) fs res in
  (~ In name (entries storage fs) ->
   response_status h = Some 404 /\ h_fs h = fs) /\
  (forall n,
      lookup fs (storage ++ [name]) = Some n -> n_isdir n = false ->
      response_status h = Some 204 /\
      ~ In name (entries storage (h_fs h)) /\
      (forall files, readSyncImageFiles __dirname (h_fs h) = Ok files ->
                     ~ In name files)).
Proof.
  intros Hres Hplain. cbn zeta. unfold delete_delete.
  rewrite admin_not_denied.
  assert (Htruthy : truthy (QString name) = true)
    by (destruct name; [discriminate Hplain | reflexivity]).
  rewrite Htruthy. cbn [negb].
  rewrite path_resolve_plain by exact Hplain.
  split.
  - intro Hnot.
    destruct (existsSync fs (storage ++ [name])) eqn:E.
    + apply existsSync_entry in E. contradiction.
    + cbn [negb]. unfold response_status, respond, end_, status.
      cbn [h_res h_fs sent statusCode headers]. rewrite Hres.
      cbn [sent option_map w_status]. now split.
  - intros n Hn Hfile.
    assert (Hex : existsSync fs (storage ++ [name]) = true)
      by (apply existsSync_entry, lookup_entry; now exists n).
    rewrite Hex. cbn [negb]. unfold unlinkSync. rewrite Hn, Hfile.
    assert (Hgone : ~ In name (entries storage (remove fs (storage ++ [name])))).
    { intro Hin. apply lookup_entry in Hin as [n' Hn'].
      rewrite lookup_remove in Hn'. discriminate. }
    unfold response_status, respond, end_, status.
    cbn [h_res h_fs sent statusCode headers]. rewrite Hres.
    cbn [sent option_map w_status].
    split; [reflexivity|]. split; [exact Hgone|].
    intros files Hscan Hin. apply Hgone.
    now apply (readSyncImageFiles_in __dirname _ files).
Qed.

End Operations.

(** C5 fails on the code: the name is resolved against the storage
    directory without being confined to it.  With valid credentials,
    [DELETE /delete?fileName=../app.js] names no file of the storage
    directory, yet the answer is 204, not 404, and the program file next to
    the storage directory is deleted. *)
Theorem delete_reaches_outside_storage :
  let h := delete_delete app_dir sample_user sample_pass sample_hmac
                         sample_key admin (QString (lit "../app.js"))
                         fs_one fresh_res in
  ~ In (lit "../app.js") (entries (storage_dir app_dir) fs_one) /\
  path_resolve (storage_dir app_dir) (lit "../app.js") =
  app_dir ++ [lit "app.js"] /\
  response_status h = Some 204 /\
  response_status h <> Some 404 /\
  existsSync fs_one (app_dir ++ [lit "app.js"]) = true /\
  existsSync (h_fs h) (app_dir ++ [lit "app.js"]) = false /\
  h_fs h <> fs_one.
Proof.
  cbn zeta.
  split; [vm_compute; intuition discriminate|].
  split; [vm_compute; reflexivity|].
  split; [vm_compute; reflexivity|].
  split; [vm_compute; discriminate|].
  split; [vm_compute; reflexivity|].
  split; [vm_compute; reflexivity|].
  vm_compute. discriminate.
Qed.

Lemma lookup_app_None (fs1 fs2 : FS) (p : path) :
  lookup fs1 p = None -> lookup (fs1 ++ fs2) p = lookup fs2 p.
Proof.
  unfold lookup. induction fs1 as [|n fs1 IH]; cbn [app find];
    [reflexivity|].
  destruct (path_eqb (n_path n) p); [discriminate | exact IH].
Qed.

Lemma digit_not_slash (s : jsstring) :
  forallb is_digit s = true -> ~ In char_slash s.
Proof.
  intros H Hin. rewrite forallb_forall in H. specialize (H _ Hin).
  discriminate H.
Qed.

(** The name given to a fetched PNG image is a plain entry name. *)
Lemma png_name_plain (uuid : jsstring) (now : Z) :
  ~ In char_slash uuid ->
  plain_name (uuid ++ lit "-" ++ moment_format now ++ lit ".png") = true.
Proof.
  intro Huuid.
  assert (Hdash : In 45%N (uuid ++ lit "-" ++ moment_format now
                                ++ lit ".png"))
    by (apply in_or_app; right; now left).
  apply plain_name_intro.
  - intro E. rewrite E in Hdash. contradiction.
  - intro E. rewrite E in Hdash. cbn in Hdash. intuition discriminate.
  - intro E. rewrite E in Hdash. cbn in Hdash. intuition discriminate.
  - intro Hin. apply in_app_or in Hin as [Hin|Hin]; [contradiction|].
    apply in_app_or in Hin as [Hin|Hin];
      [cbn in Hin; intuition discriminate|].
    apply in_app_or in Hin as [Hin|Hin].
    + now apply (digit_not_slash _ (moment_format_digits now)).
    + cbn in Hin. intuition discriminate.
Qed.

Section Fetch.

Variable __dirname : path.
Variable SITE_BASEURL ADMIN_USER ADMIN_PASS : jsstring.
Variable hmac : jsstring -> jsstring -> jsstring.
Variable key : jsstring.

Local Abbreviation storage := (storage_dir __dirname).
Local Abbreviation put_url2image :=
  (put_url2image __dirname SITE_BASEURL ADMIN_USER ADMIN_PASS hmac key).

(** C9. For an authenticated fetch request with a URL to which the remote
    server answers with a content type: when the content type does not
    begin with [image], the response is 500 and the file system is
    unchanged; when it is [image/png], the response is 200 with a JSON
    body holding [imageUrl] and [fileName], the name being
    [uuid-TIMESTAMP.png], and, the storage directory existing, a file of
    that name holding the fetched data is an entry of the storage
    directory. *)
Theorem put_url2image_by_content_type
  (u : jsstring) (response : remote_response) (contentType uuid : jsstring)
  (now : Z) (fs : FS) (res : Res)
  (Hu : u <> []) (Hres : sent res = None)
  (Hct : content_type response = Some contentType) :
  let h := put_url2image (Some (ADMIN_USER, ADMIN_PASS)) (QString u)
                         (Ok response) uuid now fs res in
  (startsWith contentType (lit "image") = false ->
   response_status h = Some 500 /\ h_fs h = fs) /\
  (contentType = lit "image/png" ->
   let name := uuid ++ lit "-" ++ moment_format now ++ lit ".png" in
   response_status h = Some 200 /\
   option_map w_body (sent (h_res h)) =
   Some (BJson [(lit "imageUrl", SITE_BASEURL ++ lit "/" ++ name);
                (lit "fileName", name)]) /\
   (is_directory fs storage = true ->
    is_directory fs (storage ++ [name]) = false ->
    ~ In char_slash uuid ->
    In name (entries storage (h_fs h)) /\
    exists n,
      lookup (h_fs h) (storage ++ [name]) = Some n /\
      n_isdir n = false /\ n_data n = data response)).
Proof.
  cbn zeta. unfold put_url2image.
  rewrite admin_not_denied.
  assert (Htruthy : truthy (QString u) = true)
    by (destruct u; [contradiction | reflexivity]).
  rewrite Htruthy, Hct. cbn [negb]. split.
  - intros ->. cbn [negb].
    unfold response_status, respond, end_, status.
    cbn [h_res h_fs sent statusCode headers]. rewrite Hres.
    cbn [sent option_map w_status]. now split.
  - intros ->.
    change (startsWith (lit "image/png") (lit "image")) with true.
    cbn [negb]. unfold destFileName.
    change (content_type_ext (lit "image/png")) with (lit "png").
    change (lit "." ++ lit "png") with (lit ".png").
    set (name := uuid ++ lit "-" ++ moment_format now ++ lit ".png").
    unfold response_status, respond, end_, send, end_, status.
    cbn [h_res h_fs sent statusCode headers]. rewrite Hres.
    cbn [sent option_map w_status w_body].
    split; [reflexivity|]. split; [reflexivity|].
    intros Hdir Hnodir Huuid.
    rewrite path_resolve_plain by now apply png_name_plain.
    unfold pipe_to_file. rewrite removelast_last, Hdir.
    unfold jsstring in *. rewrite Hnodir.
    cbn [andb negb]. split.
    + rewrite entries_app. apply in_or_app. right.
      cbn [entries n_path].
      pose proof (proj2 (entry_name_spec storage (storage ++ [name]) name)
                        eq_refl) as E.
      unfold jsstring in E. rewrite E. now left.
    + eexists. rewrite lookup_app_None by apply lookup_remove.
      unfold lookup. cbn [find n_path]. rewrite path_eqb_refl.
      split; [reflexivity|]. now split.
Qed.

End Fetch.

Lemma put_url2image_by_content_type_witness :
  (let h := put_url2image app_dir sample_baseurl sample_user sample_pass
                          sample_hmac sample_key admin
                          (QString (lit "http://example.com/page.html"))
                          (Ok {| content_type := Some (lit "text/html");
                                 data := [60%N] |})
                          sample_uuid sample_now fs_one fresh_res in
   response_status h = Some 500 /\ h_fs h = fs_one) /\
  (let h := put_url2image app_dir sample_baseurl sample_user sample_pass
                          sample_hmac sample_key admin
                          (QString (lit "http://example.com/cat.png"))
                          (Ok {| content_type := Some (lit "image/png");
                                 data := [137%N; 80%N; 78%N; 71%N] |})
                          sample_uuid sample_now fs_one fresh_res in
   response_status h = Some 200 /\
   In (sample_uuid ++ lit "-" ++ moment_format sample_now ++ lit ".png")
      (entries (storage_dir app_dir) (h_fs h))).
Proof.
  split.
  - apply (put_url2image_by_content_type
             app_dir sample_baseurl sample_user sample_pass
             sample_hmac sample_key (lit "http://example.com/page.html")
             {| content_type := Some (lit "text/html"); data := [60%N] |}
             (lit "text/html")).
    + discriminate.
    + reflexivity.
    + reflexivity.
    + reflexivity.
  - destruct (put_url2image_by_content_type
                app_dir sample_baseurl sample_user sample_pass
                sample_hmac sample_key (lit "http://example.com/cat.png")
                {| content_type := Some (lit "image/png");
                   data := [137%N; 80%N; 78%N; 71%N] |}
                (lit "image/png") sample_uuid sample_now fs_one fresh_res)
      as [_ Hpng].
    + discriminate.
    + reflexivity.
    + reflexivity.
    + destruct (Hpng eq_refl) as (H200 & _ & Hstored).
      destruct Hstored as [Hentry _].
      * reflexivity.
      * vm_compute. reflexivity.
      * intro H. vm_compute in H. intuition discriminate.
      * exact (conj H200 Hentry).
Defined.

(* ================================================================== *)
(** * More on pagination *)
(* ================================================================== *)

Lemma relative_index_bounds (len rel : Z) :
  0 <= len -> 0 <= relative_index len rel <= len.
Proof.
  intro H. unfold relative_index.
  destruct (rel <? 0) eqn:E; [apply Z.ltb_lt in E|apply Z.ltb_ge in E]; lia.
Qed.

Lemma paginate_length (array : list jsstring) (S I : Z) :
  Z.of_nat (length (paginate array (Num S) (Num I))) =
  Z.max 0 (relative_index (Z.of_nat (length array)) (I * S)
           - relative_index (Z.of_nat (length array)) ((I - 1) * S)).
Proof.
  unfold paginate. cbn [num_sub num_mul]. now rewrite slice_length.
Qed.

Lemma paginate_length_from_1 (array : list jsstring) (S I : Z) :
  0 <= S -> 1 <= I ->
  Z.of_nat (length (paginate array (Num S) (Num I))) =
  Z.max 0 (Z.min S (Z.of_nat (length array) - (I - 1) * S)).
Proof.
  intros HS HI. rewrite paginate_length.
  assert (0 <= (I - 1) * S) by (apply Z.mul_nonneg_nonneg; lia).
  assert (0 <= I * S) by (apply Z.mul_nonneg_nonneg; lia).
  rewrite !relative_index_nonneg by assumption. lia.
Qed.

(** X1. Whatever the requested index (a page number of any sign, or NaN),
    a page holds at most [S] names and is a run of consecutive names of the
    list. *)
Theorem paginate_page_shape (array : list jsstring) (S : Z) (i : number)
  (HS : 0 <= S) :
  Z.of_nat (length (paginate array (Num S) i)) <= S /\
  exists before after, array = before ++ paginate array (Num S) i ++ after.
Proof.
  split.
  - pose proof (relative_index_bounds (Z.of_nat (length array))) as Hb.
    destruct i as [I|].
    + rewrite paginate_length. unfold relative_index.
      destruct (I * S <? 0) eqn:E1; destruct ((I - 1) * S <? 0) eqn:E2;
        [apply Z.ltb_lt in E1|apply Z.ltb_lt in E1
         |apply Z.ltb_ge in E1|apply Z.ltb_ge in E1];
        [apply Z.ltb_lt in E2|apply Z.ltb_ge in E2
         |apply Z.ltb_lt in E2|apply Z.ltb_ge in E2]; lia.
    + unfold paginate. cbn [num_sub num_mul]. rewrite slice_length.
      cbn [ToIntegerOrInfinity]. lia.
  - unfold paginate, slice.
    match goal with
    | |- exists b a, _ = b ++ firstn ?c (skipn ?k _) ++ a =>
        exists (firstn k array), (skipn c (skipn k array));
        now rewrite (firstn_skipn c), (firstn_skipn k)
    end.
Qed.

Lemma paginate_page_shape_witness :
  Z.of_nat (length (paginate names25 (Num 20) (Num (-1)))) <= 20 /\
  exists before after,
    names25 = before ++ paginate names25 (Num 20) (Num (-1)) ++ after.
Proof. apply (paginate_page_shape names25 20 (Num (-1))). lia. Defined.

Lemma firstn_add_skipn {A : Type} (a b : nat) (l : list A) :
  firstn (a + b) l = firstn a l ++ firstn b (skipn a l).
Proof.
  revert l. induction a as [|a IH]; intro l; [reflexivity|].
  destruct l as [|x l]; cbn [Nat.add firstn skipn app].
  - now rewrite firstn_nil.
  - now rewrite IH.
Qed.

(** Page [i+1] is what remains of the first [size] names once [i] pages
    have been skipped. *)
Lemma paginate_nat (array : list jsstring) (size i : nat) :
  paginate array (Num (Z.of_nat size)) (Num (Z.of_nat (Datatypes.S i))) =
  firstn size (skipn (i * size) array).
Proof.
  unfold paginate, slice. cbn [num_sub num_mul ToIntegerOrInfinity].
  set (len := Z.of_nat (length array)).
  replace (Z.of_nat (Datatypes.S i) - 1) with (Z.of_nat i) by lia.
  rewrite !relative_index_nonneg by lia.
  destruct (Nat.le_gt_cases (i * size) (length array)) as [Hle|Hgt].
  - replace (Z.to_nat (Z.min (Z.of_nat i * Z.of_nat size) len))
      with (i * size)%nat by (unfold len; lia).
    destruct (Nat.le_gt_cases (Datatypes.S i * size) (length array))
      as [Hle'|Hgt'].
    + f_equal. unfold len. lia.
    + rewrite !firstn_all2; [reflexivity | |];
        rewrite length_skipn; unfold len; lia.
  - rewrite !skipn_all2 by (unfold len; lia). now rewrite !firstn_nil.
Qed.

(** X2. The pages tile the list: the first [count] pages, one after the
    other, are the first [count * size] names, in order; once
    [count * size] reaches the length of the list they are the whole list,
    so that every name is on exactly one page. *)
Theorem pages_tile (array : list jsstring) (size count : nat) :
  concat (pages array (Z.of_nat size) count) = firstn (count * size) array /\
  ((length array <= count * size)%nat ->
   concat (pages array (Z.of_nat size) count) = array).
Proof.
  assert (H : concat (pages array (Z.of_nat size) count)
              = firstn (count * size) array).
  { unfold pages. induction count as [|k IH]; [reflexivity|].
    rewrite seq_S, map_app, concat_app, IH. cbn [map concat Nat.add].
    rewrite app_nil_r, paginate_nat.
    replace (Datatypes.S k * size)%nat with (k * size + size)%nat by lia.
    now rewrite firstn_add_skipn. }
  split; [exact H|]. intro Hlen. rewrite H. now apply firstn_all2.
Qed.

Lemma pages_tile_witness :
  concat (pages names25 (Z.of_nat 20) 2) = names25.
Proof. apply (pages_tile names25 20 2). cbn. lia. Defined.

Lemma nonempty_length {A : Type} (l : list A) :
  negb (Nat.eqb (length l) 0) = (0 <? Z.of_nat (length l)).
Proof. destruct l; reflexivity. Qed.

(** X3. From page 1 on, the links and the size of the page are fixed by
    the number [N] of files: the page holds [min 20 (N - 20 (I-1))] names
    (none when that is negative); [next] is [I+1] when more than [20 I]
    files exist and is absent otherwise; [prev] is [I-1] when [I >= 2] and
    page [I-1] starts inside the list, and is absent otherwise.  So a page
    with a [next] link is full, and from a non-empty page other than the
    first there is always a link back. *)
Theorem provider_links_by_count (array : list jsstring) (I : Z)
  (HI : 1 <= I) :
  let N := Z.of_nat (length array) in
  let p := pagination (make_provider array (Num I)) in
  Z.of_nat (length (files p)) = Z.max 0 (Z.min 20 (N - (I - 1) * 20)) /\
  next p = (if I * 20 <? N then Some (Num (I + 1)) else None) /\
  prev p = (if (2 <=? I) && ((I - 2) * 20 <? N)
            then Some (Num (I - 1)) else None) /\
  (next p <> None -> length (files p) = 20%nat) /\
  (files p <> [] -> 2 <= I -> prev p <> None).
Proof.
  cbn zeta. cbn [make_provider pagination files next prev PAGE_SIZE].
  unfold PAGE_SIZE. rewrite !nonempty_length. cbn [num_add num_sub].
  assert (Hcur := paginate_length_from_1 array 20 I ltac:(lia) HI).
  assert (Hnext := paginate_length_from_1 array 20 (I + 1) ltac:(lia)
                                           ltac:(lia)).
  set (N := Z.of_nat (length array)) in *.
  assert (HN : 0 <= N) by (unfold N; lia).
  split; [exact Hcur|].
  assert (Hn : (0 <? Z.of_nat (length (paginate array (Num 20) (Num (I + 1)))))
               = (I * 20 <? N)).
  { rewrite Hnext. destruct (I * 20 <? N) eqn:E;
      [apply Z.ltb_lt in E; apply Z.ltb_lt|apply Z.ltb_ge in E; apply Z.ltb_ge];
      lia. }
  assert (Hp : (0 <? Z.of_nat (length (paginate array (Num 20) (Num (I - 1)))))
               = ((2 <=? I) && ((I - 2) * 20 <? N))).
  { destruct (2 <=? I) eqn:E2; cbn [andb].
    - apply Z.leb_le in E2.
      rewrite (paginate_length_from_1 array 20 (I - 1)) by lia.
      replace (I - 1 - 1) with (I - 2) by lia.
      destruct ((I - 2) * 20 <? N) eqn:E;
        [apply Z.ltb_lt in E; apply Z.ltb_lt
        |apply Z.ltb_ge in E; apply Z.ltb_ge]; lia.
    - apply Z.leb_gt in E2. replace (I - 1) with 0 by lia.
      change (Num 20) with PAGE_SIZE. now rewrite paginate_page_zero. }
  rewrite Hn, Hp.
  split; [reflexivity|]. split; [reflexivity|]. split.
  - destruct (I * 20 <? N) eqn:E; [|congruence]. intros _.
    apply Z.ltb_lt in E. apply Nat2Z.inj. rewrite Hcur. lia.
  - intros Hne H2.
    assert (0 < Z.of_nat (length (paginate array (Num 20) (Num I)))).
    { destruct (paginate array (Num 20) (Num I)); [contradiction|].
      cbn [length]. lia. }
    replace (2 <=? I) with true by (symmetry; apply Z.leb_le; lia).
    replace ((I - 2) * 20 <? N) with true
      by (symmetry; apply Z.ltb_lt; lia).
    discriminate.
Qed.

Lemma provider_links_by_count_witness :
  next (pagination (make_provider names25 (Num 1))) = Some (Num 2) /\
  prev (pagination (make_provider names25 (Num 2))) = Some (Num 1).
Proof.
  split.
  - apply (provider_links_by_count names25 1). lia.
  - apply (provider_links_by_count names25 2). lia.
Defined.

(** X4. Below the first page the index is not rejected.  Page 0 is always
    empty, yet has a [prev] link as soon as there are more than 20 files
    and a [next] link as soon as there is a file.  For a negative index
    [I] the start and the end of the slice are both negative and are
    counted from the end of the list: the page is the window
    [N + 20 (I-1), N + 20 I) of the list, clamped to its bounds. *)
Theorem paginate_below_first_page (array : list jsstring) (S I : Z)
  (HS : 0 < S) (HI : I <= -1) :
  let N := Z.of_nat (length array) in
  paginate array (Num S) (Num I) =
  clamped_slice array (N + (I - 1) * S) (N + I * S) /\
  files (pagination (make_provider array (Num 0))) = [] /\
  prev (pagination (make_provider array (Num 0))) =
  (if 20 <? N then Some (Num (-1)) else None) /\
  next (pagination (make_provider array (Num 0))) =
  (if 0 <? N then Some (Num 1) else None).
Proof.
  cbn zeta. set (N := Z.of_nat (length array)).
  assert (HN : 0 <= N) by (unfold N; lia).
  split; [|split; [|split]].
  - unfold paginate, slice, clamped_slice.
    cbn [num_sub num_mul ToIntegerOrInfinity].
    rewrite positions_between_firstn_skipn. fold N.
    assert (Hs : (I - 1) * S < 0) by nia.
    assert (He : I * S < 0) by nia.
    unfold relative_index.
    replace ((I - 1) * S <? 0) with true by (symmetry; now apply Z.ltb_lt).
    replace (I * S <? 0) with true by (symmetry; now apply Z.ltb_lt).
    replace (Z.to_nat (N + (I - 1) * S - 0))
      with (Z.to_nat (Z.max (N + (I - 1) * S) 0)) by lia.
    f_equal. lia.
  - apply paginate_page_zero.
  - cbn [make_provider pagination prev]. rewrite nonempty_length.
    cbn [num_sub]. unfold PAGE_SIZE. rewrite paginate_length. fold N.
    unfold relative_index. cbn.
    destruct (20 <? N) eqn:E;
      [apply Z.ltb_lt in E|apply Z.ltb_ge in E].
    + replace (0 <? Z.max 0 (Z.max (N + -20) 0 - Z.max (N + -40) 0))
        with true by (symmetry; apply Z.ltb_lt; lia).
      reflexivity.
    + replace (0 <? Z.max 0 (Z.max (N + -20) 0 - Z.max (N + -40) 0))
        with false by (symmetry; apply Z.ltb_ge; lia).
      reflexivity.
  - cbn [make_provider pagination next]. rewrite nonempty_length.
    cbn [num_add]. unfold PAGE_SIZE.
    rewrite (paginate_length_from_1 array 20 (0 + 1)) by lia. fold N.
    destruct (0 <? N) eqn:E;
      [apply Z.ltb_lt in E|apply Z.ltb_ge in E].
    + replace (0 <? Z.max 0 (Z.min 20 (N - (0 + 1 - 1) * 20)))
        with true by (symmetry; apply Z.ltb_lt; lia).
      reflexivity.
    + replace (0 <? Z.max 0 (Z.min 20 (N - (0 + 1 - 1) * 20)))
        with false by (symmetry; apply Z.ltb_ge; lia).
      reflexivity.
Qed.

Lemma paginate_below_first_page_witness :
  paginate names25 (Num 20) (Num (-1)) =
  clamped_slice names25 (Z.of_nat (length names25) + (-1 - 1) * 20)
                (Z.of_nat (length names25) + -1 * 20).
Proof. apply (paginate_below_first_page names25 20 (-1)); lia. Defined.

(* ================================================================== *)
(** * The page parameter *)
(* ================================================================== *)












(* ================================================================== *)
(** * More on the directory scanner *)
(* ================================================================== *)

Lemma storage_dir_not_root (dirname : path) : storage_dir dirname <> [].
Proof. rewrite storage_dir_eq. now destruct dirname. Qed.

(** X6. The scan fails exactly when the storage directory cannot be
    listed: with ENOENT when nothing exists at its path, with ENOTDIR when
    what exists there is not a directory; on a well-formed file system it
    succeeds in every other case.  A listing request fails with the error
    of the scan. *)
Theorem readSyncImageFiles_errors (dirname : path) (fs : FS)
  (Hwf : wf_fs fs = true) :
  (lookup fs (storage_dir dirname) = None ->
   readSyncImageFiles dirname fs = Err ENOENT) /\
  (forall n, lookup fs (storage_dir dirname) = Some n -> n_isdir n = false ->
             readSyncImageFiles dirname fs = Err ENOTDIR) /\
  (forall n, lookup fs (storage_dir dirname) = Some n -> n_isdir n = true ->
             exists files, readSyncImageFiles dirname fs = Ok files) /\
  (forall e page, readSyncImageFiles dirname fs = Err e ->
                  get_index dirname page fs = Err e /\
                  get_delete dirname page fs = Err e).
Proof.
  pose proof (storage_dir_not_root dirname) as Hroot.
  split; [|split; [|split]].
  - intro H. unfold readSyncImageFiles, readdirSync, is_directory, existsSync.
    destruct (storage_dir dirname); [contradiction|]. now rewrite H.
  - intros n H Hn.
    unfold readSyncImageFiles, readdirSync, is_directory, existsSync.
    destruct (storage_dir dirname); [contradiction|]. now rewrite H, Hn.
  - intros n H Hn. eexists. apply readSyncImageFiles_eq; [exact Hwf|].
    unfold is_directory.
    destruct (storage_dir dirname); [contradiction|]. now rewrite H.
  - intros e page H. unfold get_index, get_delete. now rewrite H.
Qed.

Lemma readSyncImageFiles_errors_witness :
  readSyncImageFiles app_dir [dir_node app_dir] = Err ENOENT /\
  readSyncImageFiles app_dir [file_node (app_dir ++ [lit "storage"]) 0]
  = Err ENOTDIR.
Proof.
  split.
  - apply (readSyncImageFiles_errors app_dir [dir_node app_dir]);
      reflexivity.
  - destruct (readSyncImageFiles_errors
                app_dir [file_node (app_dir ++ [lit "storage"]) 0])
      as (_ & H & _); [reflexivity|].
    apply (H (file_node (app_dir ++ [lit "storage"]) 0)); reflexivity.
Defined.

Lemma entries_NoDup (dir : path) (fs : FS) :
  unique_paths fs -> NoDup (entries dir fs).
Proof.
  unfold unique_paths. induction fs as [|n fs IH]; intro H;
    [constructor|].
  cbn [map] in H. inversion H as [|? ? Hnotin Hnd]; subst.
  cbn [entries]. destruct (entry_name dir (n_path n)) as [name|] eqn:E;
    [|now apply IH].
  constructor; [|now apply IH].
  intro Hin. apply in_entries in Hin as (n' & Hn' & Hp).
  apply entry_name_spec in E. apply Hnotin. rewrite E, <- Hp.
  now apply in_map.
Qed.

Lemma filter_length_le {A : Type} (f : A -> bool) (l : list A) :
  (length (filter f l) <= length l)%nat.
Proof.
  induction l as [|x l IH]; cbn [filter length]; [lia|].
  destruct (f x); cbn [length]; lia.
Qed.

(** X7. When every path of the file system names one node, the scan
    lists no name twice, and it never lists more names than the storage
    directory has entries. *)
Theorem readSyncImageFiles_no_duplicates (dirname : path) (fs : FS)
  (files : list jsstring)
  (Hwf : wf_fs fs = true) (Huniq : unique_paths fs)
  (Hscan : readSyncImageFiles dirname fs = Ok files) :
  NoDup files /\
  (length files <= length (entries (storage_dir dirname) fs))%nat.
Proof.
  assert (Hdir : is_directory fs (storage_dir dirname) = true).
  { unfold readSyncImageFiles, readdirSync in Hscan.
    destruct (is_directory fs (storage_dir dirname)); [reflexivity|].
    destruct (existsSync fs (storage_dir dirname)); discriminate. }
  rewrite readSyncImageFiles_eq in Hscan by assumption.
  injection Hscan as <-.
  pose proof (sort_perm (mtime_of dirname fs)
                (filter ALLOWED_FORMATS_REGEX_test
                        (entries (storage_dir dirname) fs))) as Hperm.
  split.
  - eapply Permutation_NoDup; [apply Permutation_sym, Hperm|].
    apply NoDup_filter. now apply entries_NoDup.
  - rewrite (Permutation_length Hperm). apply filter_length_le.
Qed.

Lemma readSyncImageFiles_no_duplicates_witness :
  NoDup names25 /\
  (length names25 <= length (entries (storage_dir app_dir) fs25))%nat.
Proof.
  apply (readSyncImageFiles_no_duplicates app_dir fs25 names25).
  - reflexivity.
  - unfold unique_paths.
    apply (NoDup_count_occ' (list_eq_dec (list_eq_dec N.eq_dec))).
    intros p Hp. vm_compute in Hp.
    repeat (destruct Hp as [<-|Hp]; [vm_compute; reflexivity|]).
    contradiction.
  - vm_compute. reflexivity.
Defined.

Lemma lower_app (a b : jsstring) : lower (a ++ b) = lower a ++ lower b.
Proof. apply map_app. Qed.

(** X8. Every format [ALLOWED_FORMATS] shows to the user ([.png], [.jpg],
    [.jpeg], [.gif], [.webp], [.bmp], [.tiff], [.svg]) is accepted by
    [ALLOWED_FORMATS_REGEX], in any mix of upper and lower case and
    whatever precedes it in the name. *)
Theorem advertised_formats_accepted (front ext format : jsstring)
  (Hformat : In format advertised_formats)
  (Hext : lower ext = format) :
  ALLOWED_FORMATS_REGEX_test (front ++ ext) = true.
Proof.
  apply ALLOWED_FORMATS_REGEX_test_spec. rewrite lower_app, Hext.
  vm_compute in Hformat.
  repeat (destruct Hformat as [<-|Hformat];
          [exists (lower front); eexists;
           split; [|reflexivity]; vm_compute; tauto|]).
  contradiction.
Qed.

Lemma advertised_formats_accepted_witness :
  ALLOWED_FORMATS_REGEX_test (lit "Holiday" ++ lit ".JPeG") = true.
Proof.
  apply (advertised_formats_accepted (lit "Holiday") (lit ".JPeG")
                                     (lit ".jpeg")).
  - vm_compute. tauto.
  - reflexivity.
Defined.


(* ================================================================== *)
(** * More on file names *)
(* ================================================================== *)

(** What follows the last separator of a string ends every part of the
    string that starts at a separator. *)
Lemma suffix_after_last_sep (sep : N) (a b c d : jsstring) :
  a ++ sep :: b = c ++ sep :: d -> ~ In sep d ->
  exists mid, sep :: b = mid ++ sep :: d.
Proof.
  revert c. induction a as [|x a IH]; intros c H Hd.
  - now exists c.
  - destruct c as [|y c].
    + cbn [app] in H. injection H as -> H. exfalso. apply Hd.
      rewrite <- H. apply in_or_app. right. now left.
    + cbn [app] in H. injection H as _ H. now apply (IH c).
Qed.

Lemma after_last_sep_unique (sep : N) (a b c d : jsstring) :
  a ++ sep :: b = c ++ sep :: d -> ~ In sep b -> ~ In sep d -> b = d.
Proof.
  intros H Hb Hd.
  destruct (suffix_after_last_sep sep a b c d H Hd) as [mid Hmid].
  destruct mid as [|m mid].
  - now injection Hmid.
  - cbn [app] in Hmid. injection Hmid as _ Hmid. exfalso. apply Hb.
    rewrite Hmid. apply in_or_app. right. now left.
Qed.

Lemma match_dot_rest_suffix (s m : jsstring) :
  match_dot_rest s = Some m ->
  exists front rest, s = front ++ m /\ m = char_dot :: rest.
Proof.
  induction s as [|c t IH]; intro H; [discriminate|].
  cbn [match_dot_rest] in H.
  destruct (N.eqb c char_dot
            && forallb (fun d => negb (is_line_terminator d)) t) eqn:E.
  - injection H as <-. apply andb_true_iff in E as [E _].
    apply N.eqb_eq in E. subst c. now exists [], t.
  - destruct (IH H) as (front & rest & -> & ->).
    now exists (c :: front), rest.
Qed.

Lemma alternatives_no_dot (alt : jsstring) :
  In alt ALLOWED_FORMATS_ALTERNATIVES -> ~ In char_dot alt.
Proof.
  intros H Hdot. vm_compute in H.
  repeat (destruct H as [<-|H];
          [vm_compute in Hdot; intuition discriminate|]).
  contradiction.
Qed.

(** X9. The name generated for an upload keeps the format of the original
    name: when the original name passes [ALLOWED_FORMATS_REGEX], so does
    the generated name, and the stored file is then one the scanner
    lists. *)
Theorem storage_filename_keeps_format (originalname name : jsstring)
  (now : Z)
  (Hformat : ALLOWED_FORMATS_REGEX_test originalname = true)
  (Hname : storage_filename originalname now = Ok name) :
  ALLOWED_FORMATS_REGEX_test name = true.
Proof.
  unfold storage_filename in Hname.
  destruct (match_dot_rest originalname) as [m|] eqn:E; [|discriminate].
  injection Hname as <-.
  apply match_dot_rest_suffix in E as (front & rest & Horig & ->).
  apply ALLOWED_FORMATS_REGEX_test_spec in Hformat
    as (front' & alt & Halt & Hlow).
  subst originalname. rewrite lower_app in Hlow.
  change (lower (char_dot :: rest)) with (char_dot :: lower rest) in Hlow.
  destruct (suffix_after_last_sep char_dot _ _ _ _ Hlow
              (alternatives_no_dot alt Halt)) as [mid Hmid].
  apply ALLOWED_FORMATS_REGEX_test_spec.
  set (stem := hd [] (split char_dot (front ++ char_dot :: rest))
               ++ lit "-" ++ moment_format now).
  exists (lower stem ++ mid), alt.
  split; [exact Halt|].
  transitivity (lower (stem ++ char_dot :: rest)).
  - f_equal. unfold stem. now rewrite <- !app_assoc.
  - rewrite lower_app, <- app_assoc, <- Hmid. reflexivity.
Qed.

Lemma storage_filename_keeps_format_witness :
  ALLOWED_FORMATS_REGEX_test (lit "cat-20231115071320.old.PNG") = true.
Proof.
  apply (storage_filename_keeps_format (lit "cat.old.PNG") _ sample_now);
    vm_compute; reflexivity.
Defined.

Lemma split_segment_no_sep (sep : N) (s : jsstring) :
  forall seg, In seg (split sep s) -> ~ In sep seg.
Proof.
  induction s as [|c t IH]; intros seg Hin.
  - cbn in Hin. destruct Hin as [<-|[]]. intros [].
  - cbn [split] in Hin. destruct (N.eqb c sep) eqn:E.
    + destruct Hin as [<-|Hin]; [intros [] | now apply IH].
    + apply N.eqb_neq in E.
      destruct (split sep t) as [|seg0 segs] eqn:Es.
      * destruct Hin as [<-|[]]. intros [->|[]]. congruence.
      * destruct Hin as [<-|Hin].
        -- intros [->|Hin']; [congruence|].
           apply (IH seg0); [now left | exact Hin'].
        -- apply IH. now right.
Qed.

Lemma content_type_ext_no_slash (contentType : jsstring) :
  ~ In char_slash (content_type_ext contentType).
Proof.
  unfold content_type_ext.
  destruct (nth_error (split char_slash contentType) 1) as [ext|] eqn:E.
  - apply nth_error_In in E. now apply split_segment_no_sep in E.
  - vm_compute. intuition discriminate.
Qed.

Lemma destFileName_plain (uuid contentType : jsstring) (now : Z) :
  ~ In char_slash uuid ->
  plain_name (destFileName uuid now contentType) = true.
Proof.
  intro Huuid. unfold destFileName.
  assert (Hdash : In 45%N (uuid ++ lit "-" ++ moment_format now ++ lit "."
                                ++ content_type_ext contentType))
    by (apply in_or_app; right; now left).
  apply plain_name_intro.
  - intro E. rewrite E in Hdash. contradiction.
  - intro E. rewrite E in Hdash. cbn in Hdash. intuition discriminate.
  - intro E. rewrite E in Hdash. cbn in Hdash. intuition discriminate.
  - intro Hin. apply in_app_or in Hin as [Hin|Hin]; [contradiction|].
    apply in_app_or in Hin as [Hin|Hin];
      [cbn in Hin; intuition discriminate|].
    apply in_app_or in Hin as [Hin|Hin];
      [now apply (digit_not_slash _ (moment_format_digits now))|].
    apply in_app_or in Hin as [Hin|Hin];
      [cbn in Hin; intuition discriminate|].
    now apply (content_type_ext_no_slash contentType).
Qed.

Lemma lower_no_dot (s : jsstring) : ~ In char_dot s -> ~ In char_dot (lower s).
Proof.
  intros H Hin. apply in_map_iff in Hin as (c & Hc & Hin).
  apply H. unfold ascii_lower in Hc.
  destruct (N.leb 65 c && N.leb c 90)%N eqn:E.
  - apply andb_true_iff in E as [E1 E2]. apply N.leb_le in E1, E2.
    unfold char_dot in Hc. lia.
  - now subst c.
Qed.

(** X10. The file of a fetched image always lands directly in the storage
    directory: whatever the content type, the destination resolves to the
    entry [destFileName] of the storage directory, because the extension
    is cut between slashes.  And the scanner lists the stored file exactly
    when the subtype of the content type is, ignoring case, one of [gif],
    [jpg], [jpeg], [tif], [tiff], [png], [webp], [bmp], [svg]: an image of
    another subtype is stored but never listed. *)
Theorem destFileName_in_storage (dirname : path)
  (uuid type subtype : jsstring) (now : Z)
  (Huuid : ~ In char_slash uuid)
  (Htype : ~ In char_slash type)
  (Hsub : ~ In char_slash subtype) (Hdot : ~ In char_dot subtype) :
  (forall contentType,
      path_resolve (storage_dir dirname) (destFileName uuid now contentType)
      = storage_dir dirname ++ [destFileName uuid now contentType]) /\
  ALLOWED_FORMATS_REGEX_test
    (destFileName uuid now (type ++ char_slash :: subtype)) =
  existsb (str_eqb (lower subtype)) ALLOWED_FORMATS_ALTERNATIVES.
Proof.
  split.
  - intro contentType. apply path_resolve_plain.
    now apply destFileName_plain.
  - unfold destFileName. rewrite content_type_ext_subtype by assumption.
    set (stem := uuid ++ lit "-" ++ moment_format now).
    assert (Hname : uuid ++ lit "-" ++ moment_format now ++ lit "."
                         ++ subtype = stem ++ char_dot :: subtype)
      by (unfold stem; now rewrite <- !app_assoc).
    rewrite Hname. apply eq_true_iff_eq.
    rewrite ALLOWED_FORMATS_REGEX_test_spec, existsb_exists, lower_app.
    change (lower (char_dot :: subtype)) with (char_dot :: lower subtype).
    split.
    + intros (front & alt & Halt & Hlow). exists alt. split; [exact Halt|].
      apply str_eqb_eq.
      eapply after_last_sep_unique; [exact Hlow | |].
      * now apply lower_no_dot.
      * now apply alternatives_no_dot.
    + intros (alt & Halt & Heq). apply str_eqb_eq in Heq.
      exists (lower stem), alt. split; [exact Halt|]. now rewrite Heq.
Qed.

Lemma destFileName_in_storage_witness :
  ALLOWED_FORMATS_REGEX_test
    (destFileName sample_uuid sample_now
                  (lit "image" ++ char_slash :: lit "svg+xml")) = false.
Proof.
  destruct (destFileName_in_storage app_dir sample_uuid (lit "image")
                                    (lit "svg+xml") sample_now)
    as [_ H];
    try (intro Hin; vm_compute in Hin; intuition discriminate).
  rewrite H. reflexivity.
Defined.

(* ================================================================== *)
(** * Timestamps tell seconds apart *)
(* ================================================================== *)

Lemma zeroFill_value_4 (y : Z) :
  0 <= y < 10000 -> digits_value (zeroFill y 4) = y.
Proof.
  intro H. apply Z.eqb_eq.
  apply (all_below_Z 10000 (fun y => digits_value (zeroFill y 4) =? y));
    [|exact H].
  vm_compute. reflexivity.
Qed.

Lemma zeroFill_value_2 (v : Z) :
  0 <= v < 100 -> digits_value (zeroFill v 2) = v.
Proof.
  intro H. apply Z.eqb_eq.
  apply (all_below_Z 100 (fun v => digits_value (zeroFill v 2) =? v));
    [|exact H].
  vm_compute. reflexivity.
Qed.

Lemma era_day_back_all (doe : Z) :
  0 <= doe < 146097 -> era_day_back doe = true.
Proof.
  apply (all_below_Z 146097 era_day_back). vm_compute. reflexivity.
Qed.

Lemma days_from_civil_shift (y m d e : Z) :
  days_from_civil (y + e * 400) m d = days_from_civil y m d + e * 146097.
Proof.
  unfold days_from_civil.
  destruct (m <=? 2).
  - replace (y + e * 400 - 1) with (y - 1 + e * 400) by lia.
    rewrite Z.div_add, Z.mod_add by lia. lia.
  - rewrite Z.div_add, Z.mod_add by lia. lia.
Qed.

(** The date of a day determines the day. *)
Lemma days_from_civil_from_days (z : Z) :
  let '(y, m, d) := civil_from_days z in days_from_civil y m d = z.
Proof.
  rewrite civil_from_days_era.
  set (doe := (z + 719468) mod 146097).
  set (era := (z + 719468) / 146097).
  assert (Hdoe : 0 <= doe < 146097) by (apply Z.mod_pos_bound; lia).
  assert (Hz : z + 719468 = 146097 * era + doe) by (apply Z.div_mod; lia).
  pose proof (era_day_back_all doe Hdoe) as Hback. unfold era_day_back in Hback.
  destruct (civil_from_days (doe - 719468)) as [[y m] d].
  apply Z.eqb_eq in Hback. rewrite days_from_civil_shift, Hback. lia.
Qed.

Lemma app_inv_length {A : Type} (a a' b b' : list A) :
  length a = length a' -> a ++ b = a' ++ b' -> a = a' /\ b = b'.
Proof.
  revert a'. induction a as [|x a IH]; intros [|x' a'] Hlen H;
    try discriminate.
  - now split.
  - cbn [app] in H. injection H as -> H. injection Hlen as Hlen.
    destruct (IH a' Hlen H) as [-> ->]. now split.
Qed.

(** The fields of a timestamp before the year 10000 are in range. *)
Lemma moment_fields_bounds (now : Z) :
  0 <= now < YEAR_10000 ->
  let secs := now / 1000 + TZ_OFFSET_SECONDS in
  let '(y, m, d) := civil_from_days (secs / 86400) in
  let sod := secs mod 86400 in
  0 <= y < 10000 /\ 0 <= m < 100 /\ 0 <= d < 100 /\
  0 <= sod / 3600 < 100 /\ 0 <= sod mod 3600 / 60 < 100 /\
  0 <= sod mod 60 < 100.
Proof.
  unfold YEAR_10000, TZ_OFFSET_SECONDS. intro Hnow. cbn zeta.
  set (secs := now / 1000 + 9 * 3600).
  assert (Hsecs : 0 <= secs < 253402300800).
  { unfold secs.
    assert (0 <= now / 1000 < 253402268400)
      by (split; [apply Z.div_pos; lia | apply Z.div_lt_upper_bound; lia]).
    lia. }
  assert (Hdays : 0 <= secs / 86400 < 2932897)
    by (split; [apply Z.div_pos; lia | apply Z.div_lt_upper_bound; lia]).
  pose proof (civil_from_days_bounds _ Hdays) as Hciv.
  destruct (civil_from_days (secs / 86400)) as [[y m] d].
  destruct Hciv as (Hy & Hm & Hd).
  pose proof (Z.mod_pos_bound secs 86400 ltac:(lia)) as Hsod.
  set (sod := secs mod 86400) in *.
  assert (0 <= sod / 3600 < 100)
    by (split; [apply Z.div_pos; lia | apply Z.div_lt_upper_bound; lia]).
  pose proof (Z.mod_pos_bound sod 3600 ltac:(lia)).
  assert (0 <= sod mod 3600 / 60 < 100)
    by (split; [apply Z.div_pos; lia | apply Z.div_lt_upper_bound; lia]).
  pose proof (Z.mod_pos_bound sod 60 ltac:(lia)).
  repeat split; lia.
Qed.

Lemma seconds_of_day_fields (sod sod' : Z) :
  sod / 3600 = sod' / 3600 ->
  sod mod 3600 / 60 = sod' mod 3600 / 60 ->
  sod mod 60 = sod' mod 60 ->
  sod = sod'.
Proof.
  intros Hh Hm Hs.
  pose proof (Z.div_mod sod 3600 ltac:(lia)).
  pose proof (Z.div_mod sod' 3600 ltac:(lia)).
  pose proof (Z.div_mod (sod mod 3600) 60 ltac:(lia)).
  pose proof (Z.div_mod (sod' mod 3600) 60 ltac:(lia)).
  assert (E : forall a, (a mod 3600) mod 60 = a mod 60).
  { intro a. symmetry. rewrite (Z.div_mod a 3600) at 1 by lia.
    replace (3600 * (a / 3600) + a mod 3600)
      with (a mod 3600 + (60 * (a / 3600)) * 60) by lia.
    apply Z.mod_add. lia. }
  rewrite !E in *. lia.
Qed.

(** X11. Before the year 10000 a timestamp determines its second: two
    instants with the same timestamp lie in the same second.  Hence an
    original name uploaded at two instants gets the same destination name
    exactly when the instants lie in the same second: uploads of a name
    collide within a second and never across seconds. *)
Theorem moment_format_injective (now now' : Z)
  (Hnow : 0 <= now < YEAR_10000) (Hnow' : 0 <= now' < YEAR_10000) :
  (moment_format now = moment_format now' <-> now / 1000 = now' / 1000) /\
  (forall originalname name,
      storage_filename originalname now = Ok name ->
      (storage_filename originalname now' = Ok name <->
       now / 1000 = now' / 1000)).
Proof.
  assert (Hinj : moment_format now = moment_format now' ->
                 now / 1000 = now' / 1000).
  { intro H.
    pose proof (moment_fields_bounds now Hnow) as B.
    pose proof (moment_fields_bounds now' Hnow') as B'.
    pose proof (days_from_civil_from_days
                  ((now / 1000 + TZ_OFFSET_SECONDS) / 86400)) as R.
    pose proof (days_from_civil_from_days
                  ((now' / 1000 + TZ_OFFSET_SECONDS) / 86400)) as R'.
    unfold moment_format in H. cbn zeta in B, B'.
    set (secs := now / 1000 + TZ_OFFSET_SECONDS) in *.
    set (secs' := now' / 1000 + TZ_OFFSET_SECONDS) in *.
    destruct (civil_from_days (secs / 86400)) as [[y m] d].
    destruct (civil_from_days (secs' / 86400)) as [[y' m'] d'].
    destruct B as (By & Bm & Bd & Bh & Bi & Bs).
    destruct B' as (By' & Bm' & Bd' & Bh' & Bi' & Bs').
    apply app_inv_length in H as [Hy H];
      [|now rewrite !zeroFill_4].
    apply app_inv_length in H as [Hm H];
      [|now rewrite !zeroFill_2].
    apply app_inv_length in H as [Hd H];
      [|now rewrite !zeroFill_2].
    apply app_inv_length in H as [Hh H];
      [|now rewrite !zeroFill_2].
    apply app_inv_length in H as [Hi Hs];
      [|now rewrite !zeroFill_2].
    apply (f_equal digits_value) in Hy, Hm, Hd, Hh, Hi, Hs.
    rewrite !zeroFill_value_4 in Hy by assumption.
    rewrite !zeroFill_value_2 in Hm, Hd, Hh, Hi, Hs by assumption.
    subst y' m' d'.
    assert (Hdays : secs / 86400 = secs' / 86400) by congruence.
    assert (Hsod : secs mod 86400 = secs' mod 86400)
      by now apply seconds_of_day_fields.
    assert (secs = secs').
    { rewrite (Z.div_mod secs 86400), (Z.div_mod secs' 86400) by lia.
      now rewrite Hdays, Hsod. }
    unfold secs, secs' in *. lia. }
  split.
  - split; [exact Hinj | apply moment_format_seconds].
  - intros originalname name Hname. unfold storage_filename in *.
    destruct (match_dot_rest originalname) as [ext|]; [|discriminate].
    injection Hname as <-. split.
    + intro H. injection H as H. apply Hinj.
      apply app_inv_head in H. injection H as H.
      apply app_inv_tail in H. now symmetry.
    + intro H. now rewrite (moment_format_seconds now' now).
Qed.

Lemma moment_format_injective_witness :
  moment_format 1700000000000 = moment_format 1700000000999 /\
  moment_format 1700000000000 <> moment_format 1700000001000.
Proof.
  split.
  - apply (moment_format_injective 1700000000000 1700000000999);
      [unfold YEAR_10000; lia | unfold YEAR_10000; lia | reflexivity].
  - intro H.
    apply (moment_format_injective 1700000000000 1700000001000) in H;
      [discriminate H | unfold YEAR_10000; lia | unfold YEAR_10000; lia].
Defined.

(* ================================================================== *)
(** * More on delete and fetch *)
(* ================================================================== *)

Lemma status_of_end (code : Z) (b : body) (res : Res) (fs : FS) :
  sent res = None ->
  response_status (respond (end_ b (status code res)) fs) = Some code.
Proof.
  intro H. unfold response_status, respond, end_, status.
  cbn [h_res sent statusCode headers]. rewrite H. reflexivity.
Qed.

Lemma status_of_send_end (code : Z) (b b' : body) (res : Res) (fs : FS) :
  sent res = None ->
  response_status (respond (end_ b' (send b (status code res))) fs)
  = Some code.
Proof.
  intro H. unfold response_status, respond, send, end_, status.
  cbn [h_res sent statusCode headers]. rewrite H. reflexivity.
Qed.

Lemma no_slash_check (s : jsstring) :
  forallb (fun c => negb (N.eqb c char_slash)) s = true ->
  ~ In char_slash s.
Proof.
  intros H Hin. rewrite forallb_forall in H. specialize (H _ Hin).
  now rewrite N.eqb_refl in H.
Qed.

Section MoreOperations.

Variable __dirname : path.
Variable SITE_BASEURL ADMIN_USER ADMIN_PASS : jsstring.
Variable hmac : jsstring -> jsstring -> jsstring.
Variable key : jsstring.

Local Abbreviation storage := (storage_dir __dirname).
Local Abbreviation admin_credentials := (Some (ADMIN_USER, ADMIN_PASS)).
Local Abbreviation delete_delete :=
  (delete_delete __dirname ADMIN_USER ADMIN_PASS hmac key).
Local Abbreviation put_url2image :=
  (put_url2image __dirname SITE_BASEURL ADMIN_USER ADMIN_PASS hmac key).

(** X12. What an authenticated delete request does, for any non-empty
    [fileName]: the name is resolved against the storage directory (it may
    leave it through [..] or an absolute path); when nothing exists at the
    resolved path the answer is 404 and nothing changes; when a file exists
    there the answer is 204 and the nodes at that path are removed; when a
    directory exists there, or the path is the root, the answer is 500 and
    nothing changes.  The request is never passed on. *)
Theorem delete_delete_outcomes (name : jsstring) (fs : FS) (res : Res)
  (Hname : name <> []) (Hres : sent res = None) :
  let target := path_resolve storage name in
  let h := delete_delete admin_credentials (QString name) fs res in
  h_next h = false /\
  (existsSync fs target = false ->
   response_status h = Some 404 /\ h_fs h = fs) /\
  (forall n, lookup fs target = Some n -> n_isdir n = false ->
             response_status h = Some 204 /\ h_fs h = remove fs target) /\
  (existsSync fs target = true ->
   (forall n, lookup fs target = Some n -> n_isdir n = true) ->
   response_status h = Some 500 /\ h_fs h = fs).
Proof.
  cbn zeta. unfold delete_delete. rewrite admin_not_denied.
  assert (Htruthy : truthy (QString name) = true)
    by (destruct name; [contradiction | reflexivity]).
  rewrite Htruthy. cbn [negb].
  set (target := path_resolve storage name).
  split; [|split; [|split]].
  - destruct (existsSync fs target); cbn [negb]; [|reflexivity].
    destruct (unlinkSync fs target); reflexivity.
  - intros ->. cbn [negb]. split; [now apply status_of_end | reflexivity].
  - intros n Hn Hfile.
    assert (Hex : existsSync fs target = true).
    { unfold existsSync. destruct target; [reflexivity | now rewrite Hn]. }
    rewrite Hex. cbn [negb]. unfold unlinkSync. rewrite Hn, Hfile.
    split; [now apply status_of_end | reflexivity].
  - intros Hex Hdir. rewrite Hex. cbn [negb]. unfold unlinkSync.
    destruct (lookup fs target) as [n|] eqn:Hn.
    + rewrite (Hdir n eq_refl).
      split; [|reflexivity].
      unfold response_status, respond, send, end_, status.
      cbn [h_res sent statusCode headers]. rewrite Hres. reflexivity.
    + split; [|reflexivity].
      unfold response_status, respond, send, end_, status.
      cbn [h_res sent statusCode headers]. rewrite Hres. reflexivity.
Qed.

(** X13. Whatever the credentials and the query, a delete request never
    adds or alters a node, and removes at most the nodes at the path its
    [fileName] resolves to: every node of the resulting file system is a
    node of the original one, and every node at another path stays. *)
Theorem delete_delete_frame (c : credentials) (fileName : query_value)
  (fs : FS) (res : Res) :
  let h := delete_delete c fileName fs res in
  (forall n, In n (h_fs h) -> In n fs) /\
  (forall n, In n fs ->
             (forall name, fileName = QString name ->
                           n_path n <> path_resolve storage name) ->
             In n (h_fs h)).
Proof.
  cbn zeta. unfold delete_delete.
  destruct (denied ADMIN_USER ADMIN_PASS hmac key c); [now split|].
  destruct fileName as [|name|l|]; try now split.
  destruct (negb (truthy (QString name))); [now split|].
  destruct (negb (existsSync fs (path_resolve storage name)));
    [now split|].
  unfold unlinkSync.
  destruct (lookup fs (path_resolve storage name)) as [n0|];
    [|now split].
  destruct (n_isdir n0); [now split|].
  cbn [respond h_fs]. split.
  - intros n Hn. now apply in_remove in Hn.
  - intros n Hn Hother. apply in_remove. split; [exact Hn|].
    now apply Hother.
Qed.

(** X14. A delete or fetch request with valid credentials whose parameter
    is missing, empty or not a string is passed on with [next()]: no
    response is sent and the file system is untouched. *)
Theorem gated_operations_pass_on (fileName url : query_value)
  (remote : result remote_response) (uuid : jsstring) (now : Z)
  (fs : FS) (res : Res)
  (Hfile : truthy fileName = false \/ forall s, fileName <> QString s)
  (Hurl : truthy url = false \/ forall s, url <> QString s) :
  delete_delete admin_credentials fileName fs res = pass_on res fs /\
  put_url2image admin_credentials url remote uuid now fs res
  = pass_on res fs.
Proof.
  unfold delete_delete, put_url2image. rewrite admin_not_denied. split.
  - destruct fileName as [|s|l|]; try reflexivity.
    destruct Hfile as [H|H]; [now rewrite H | now elim (H s)].
  - destruct url as [|s|l|]; try reflexivity.
    destruct Hurl as [H|H]; [now rewrite H | now elim (H s)].
Qed.

(** X15. What an authenticated fetch request with a URL answers: 200
    exactly when the remote request succeeded with a content type that
    begins with [image], and 500 otherwise (failed request, missing
    content type, other content type); whenever the answer is not 200 the
    file system is unchanged.  When the answer is 200 but the storage
    directory does not exist, nothing is stored either: the response is
    sent before the file is opened. *)
Theorem put_url2image_outcomes (u : jsstring)
  (remote : result remote_response) (uuid : jsstring) (now : Z)
  (fs : FS) (res : Res)
  (Hu : u <> []) (Hres : sent res = None) :
  let h := put_url2image admin_credentials (QString u) remote uuid now
                         fs res in
  let is_image :=
    match remote with
    | Ok response =>
        match content_type response with
        | Some contentType => startsWith contentType (lit "image")
        | None => false
        end
    | Err _ => false
    end in
  h_next h = false /\
  response_status h = Some (if is_image then 200 else 500) /\
  (is_image = false -> h_fs h = fs) /\
  (~ In char_slash uuid -> is_directory fs storage = false -> h_fs h = fs).
Proof.
  cbn zeta. unfold put_url2image. rewrite admin_not_denied.
  assert (Htruthy : truthy (QString u) = true)
    by (destruct u; [contradiction | reflexivity]).
  rewrite Htruthy. cbn [negb].
  destruct remote as [response|e].
  - destruct (content_type response) as [contentType|].
    + destruct (startsWith contentType (lit "image")); cbn [negb].
      * split; [reflexivity|]. split; [now apply status_of_send_end|].
        split; [discriminate|]. intros Huuid Hdir. cbn [respond h_fs].
        rewrite path_resolve_plain by now apply destFileName_plain.
        unfold pipe_to_file. now rewrite removelast_last, Hdir.
      * split; [reflexivity|]. split; [now apply status_of_end|].
        now split.
    + split; [reflexivity|]. split; [now apply status_of_send_end|].
      now split.
  - split; [reflexivity|]. split; [now apply status_of_send_end|].
    now split.
Qed.

End MoreOperations.

Lemma delete_delete_outcomes_witness :
  response_status
    (delete_delete app_dir sample_user sample_pass sample_hmac sample_key
                   admin (QString (lit "storage")) fs_one fresh_res)
  = Some 404 /\
  response_status
    (delete_delete app_dir sample_user sample_pass sample_hmac sample_key
                   admin (QString (lit "a.png")) fs_one fresh_res)
  = Some 204 /\
  response_status
    (delete_delete app_dir sample_user sample_pass sample_hmac sample_key
                   admin (QString (lit "..")) fs_one fresh_res)
  = Some 500.
Proof.
  split; [|split].
  - destruct (delete_delete_outcomes app_dir sample_user sample_pass
                sample_hmac sample_key (lit "storage") fs_one fresh_res)
      as (_ & H & _); [discriminate | reflexivity|].
    destruct H as [H _]; [vm_compute; reflexivity | exact H].
  - destruct (delete_delete_outcomes app_dir sample_user sample_pass
                sample_hmac sample_key (lit "a.png") fs_one fresh_res)
      as (_ & _ & H & _); [discriminate | reflexivity|].
    destruct (H (stored "a.png" 5000)) as [H' _];
      [vm_compute; reflexivity | reflexivity | exact H'].
  - destruct (delete_delete_outcomes app_dir sample_user sample_pass
                sample_hmac sample_key (lit "..") fs_one fresh_res)
      as (_ & _ & _ & H); [discriminate | reflexivity|].
    destruct H as [H _]; [vm_compute; reflexivity | | exact H].
    intros n Hn. vm_compute in Hn. now injection Hn as <-.
Defined.

Lemma gated_operations_pass_on_witness :
  delete_delete app_dir sample_user sample_pass sample_hmac sample_key
                admin QUndefined fs_one fresh_res = pass_on fresh_res fs_one.
Proof.
  destruct (gated_operations_pass_on app_dir sample_baseurl sample_user
              sample_pass sample_hmac sample_key QUndefined (QString [])
              (Err AxiosError) sample_uuid sample_now fs_one fresh_res)
    as [H _].
  - left. reflexivity.
  - left. reflexivity.
  - exact H.
Defined.

Lemma put_url2image_outcomes_witness :
  response_status
    (put_url2image app_dir sample_baseurl sample_user sample_pass
                   sample_hmac sample_key admin
                   (QString (lit "http://example.com/x"))
                   (Err AxiosError) sample_uuid sample_now fs_one fresh_res)
  = Some 500 /\
  h_fs (put_url2image app_dir sample_baseurl sample_user sample_pass
                      sample_hmac sample_key admin
                      (QString (lit "http://example.com/cat.png"))
                      (Ok {| content_type := Some (lit "image/png");
                             data := [137%N] |})
                      sample_uuid sample_now [dir_node app_dir] fresh_res)
  = [dir_node app_dir].
Proof.
  split.
  - destruct (put_url2image_outcomes app_dir sample_baseurl sample_user
                sample_pass sample_hmac sample_key
                (lit "http://example.com/x") (Err AxiosError)
                sample_uuid sample_now fs_one fresh_res)
      as (_ & H & _); [discriminate | reflexivity | exact H].
  - destruct (put_url2image_outcomes app_dir sample_baseurl sample_user
                sample_pass sample_hmac sample_key
                (lit "http://example.com/cat.png")
                (Ok {| content_type := Some (lit "image/png");
                       data := [137%N] |})
                sample_uuid sample_now [dir_node app_dir] fresh_res)
      as (_ & _ & _ & H); [discriminate | reflexivity|].
    refine (H _ _); [apply no_slash_check|]; vm_compute; reflexivity.
Defined.

(* ================================================================== *)
(** * The file system through the operations *)
(* ================================================================== *)

Lemma forallb_rev {A : Type} (f : A -> bool) (l : list A) :
  forallb f (rev l) = forallb f l.
Proof.
  apply eq_true_iff_eq. rewrite !forallb_forall.
  split; intros H x Hx; apply H; [now apply in_rev in Hx
                                 | now apply in_rev].
Qed.

Lemma forallb_tl {A : Type} (f : A -> bool) (l : list A) :
  forallb f l = true -> forallb f (tl l) = true.
Proof.
  destruct l as [|x l]; [trivial|]. cbn. intro H.
  now apply andb_true_iff in H as [_ H].
Qed.

(** Normalisation only keeps plain segments. *)
Lemma normalize_keeps_plain (segs : list jsstring) :
  forall stack,
    forallb plain_name stack = true ->
    (forall seg, In seg segs -> ~ In char_slash seg) ->
    plain_path (normalize stack segs) = true.
Proof.
  induction segs as [|seg segs IH]; intros stack Hstack Hsegs.
  - cbn [normalize]. unfold plain_path. now rewrite forallb_rev.
  - cbn [normalize].
    assert (Hrest : forall s, In s segs -> ~ In char_slash s)
      by (intros s Hs; apply Hsegs; now right).
    destruct (str_eqb seg []) eqn:E0; [now apply IH|].
    destruct (str_eqb seg (lit ".")) eqn:E1; [now apply IH|].
    destruct (str_eqb seg (lit "..")) eqn:E2.
    + apply IH; [now apply forallb_tl | exact Hrest].
    + apply IH; [|exact Hrest]. cbn [forallb]. rewrite Hstack, andb_true_r.
      apply str_eqb_neq in E0, E1, E2.
      apply plain_name_intro; try assumption. apply Hsegs. now left.
Qed.

(** A resolved path is normalised. *)
Lemma path_resolve_plain_path (base : path) (name : jsstring) :
  plain_path base = true -> plain_path (path_resolve base name) = true.
Proof.
  intro Hbase. unfold path_resolve.
  assert (Hsegs : forall seg, In seg (split char_slash name) ->
                              ~ In char_slash seg)
    by apply split_segment_no_sep.
  destruct name as [|c t]; [|destruct (N.eq_dec c 47) as [->|Hc]].
  - apply normalize_keeps_plain; [|exact Hsegs].
    unfold plain_path in Hbase. now rewrite forallb_rev.
  - now apply normalize_keeps_plain.
  - assert (E : match c with
                | 47%N => normalize [] (split char_slash (c :: t))
                | _ => normalize (rev base) (split char_slash (c :: t))
                end = normalize (rev base) (split char_slash (c :: t))).
    { destruct c as [|p]; [reflexivity|].
      do 6 (destruct p as [p|p|]; try reflexivity). congruence. }
    rewrite E. apply normalize_keeps_plain; [|exact Hsegs].
    unfold plain_path in Hbase. now rewrite forallb_rev.
Qed.

Lemma storage_dir_plain (dirname : path) :
  plain_path dirname = true -> plain_path (storage_dir dirname) = true.
Proof.
  intro H. rewrite storage_dir_eq. unfold plain_path in *.
  rewrite forallb_app, H. reflexivity.
Qed.

Lemma wf_fs_remove (fs : FS) (p : path) :
  wf_fs fs = true -> wf_fs (remove fs p) = true.
Proof.
  unfold wf_fs. rewrite !forallb_forall. intros H n Hn.
  apply in_remove in Hn as [Hn _]. now apply H.
Qed.

Lemma unique_paths_remove (fs : FS) (p : path) :
  unique_paths fs -> unique_paths (remove fs p).
Proof.
  unfold unique_paths, remove.
  induction fs as [|n fs IH]; intro H; [constructor|].
  cbn [map] in H. inversion H as [|? ? Hnotin Hnd]; subst.
  cbn [filter]. destruct (negb (path_eqb (n_path n) p)); [|now apply IH].
  cbn [map]. constructor; [|now apply IH].
  intro Hin. apply Hnotin. apply in_map_iff in Hin as (n' & <- & Hn').
  apply filter_In in Hn' as [Hn' _]. now apply in_map.
Qed.

Lemma pipe_to_file_wf (fs : FS) (p : path) (data : list N) (now : Z) :
  wf_fs fs = true -> plain_path p = true ->
  wf_fs (pipe_to_file fs p data now) = true.
Proof.
  intros Hwf Hp. unfold pipe_to_file.
  destruct (is_directory fs (removelast p) && negb (is_directory fs p));
    [|exact Hwf].
  unfold wf_fs. rewrite forallb_app. cbn [forallb n_path].
  rewrite Hp, andb_true_r. now apply wf_fs_remove.
Qed.

Lemma pipe_to_file_unique (fs : FS) (p : path) (data : list N) (now : Z) :
  unique_paths fs -> unique_paths (pipe_to_file fs p data now).
Proof.
  intro H. unfold pipe_to_file.
  destruct (is_directory fs (removelast p) && negb (is_directory fs p));
    [|exact H].
  unfold unique_paths. rewrite map_app. cbn [map n_path].
  apply NoDup_app.
  - now apply unique_paths_remove.
  - constructor; [intros [] | constructor].
  - intros q Hq [<-|[]]. apply in_map_iff in Hq as (n & Hn & Hin).
    apply in_remove in Hin as [_ Hne]. contradiction.
Qed.

Section Invariants.

Variable __dirname : path.
Variable SITE_BASEURL ADMIN_USER ADMIN_PASS : jsstring.
Variable hmac : jsstring -> jsstring -> jsstring.
Variable key : jsstring.

Local Abbreviation storage := (storage_dir __dirname).
Local Abbreviation delete_delete :=
  (delete_delete __dirname ADMIN_USER ADMIN_PASS hmac key).
Local Abbreviation put_url2image :=
  (put_url2image __dirname SITE_BASEURL ADMIN_USER ADMIN_PASS hmac key).

(** X16. Delete and fetch keep the file system well formed: when every
    node has a normalised path, no two nodes share a path, and the program
    directory has a normalised path, the same holds after any delete or
    fetch request, whatever its credentials and parameters. *)
Theorem operations_keep_well_formed
  (c : credentials) (fileName url : query_value)
  (remote : result remote_response) (uuid : jsstring) (now : Z)
  (fs : FS) (res : Res)
  (Hdir : plain_path __dirname = true)
  (Hwf : wf_fs fs = true) (Huniq : unique_paths fs) :
  (wf_fs (h_fs (delete_delete c fileName fs res)) = true /\
   unique_paths (h_fs (delete_delete c fileName fs res))) /\
  (wf_fs (h_fs (put_url2image c url remote uuid now fs res)) = true /\
   unique_paths (h_fs (put_url2image c url remote uuid now fs res))).
Proof.
  split.
  - unfold delete_delete.
    destruct (denied ADMIN_USER ADMIN_PASS hmac key c); [now split|].
    destruct fileName as [|name|l|]; try now split.
    destruct (negb (truthy (QString name))); [now split|].
    destruct (negb (existsSync fs (path_resolve storage name)));
      [now split|].
    unfold unlinkSync.
    destruct (lookup fs (path_resolve storage name)) as [n0|];
      [|now split].
    destruct (n_isdir n0); [now split|]. cbn [respond h_fs].
    split; [now apply wf_fs_remove | now apply unique_paths_remove].
  - unfold put_url2image.
    destruct (denied ADMIN_USER ADMIN_PASS hmac key c); [now split|].
    destruct url as [|u|l|]; try now split.
    destruct (negb (truthy (QString u))); [now split|].
    destruct remote as [response|e]; [|now split].
    destruct (content_type response) as [contentType|]; [|now split].
    destruct (negb (startsWith contentType (lit "image"))); [now split|].
    cbn [respond h_fs]. split.
    + apply pipe_to_file_wf; [exact Hwf|].
      now apply path_resolve_plain_path, storage_dir_plain.
    + now apply pipe_to_file_unique.
Qed.

(** X17. A fetch request never removes or alters a node at a path other
    than its destination, and adds at most one node: a file that holds
    the data of the remote response and is stamped with the time of the
    request. *)
Theorem put_url2image_frame
  (c : credentials) (url : query_value)
  (remote : result remote_response) (uuid : jsstring) (now : Z)
  (fs : FS) (res : Res) :
  let h := put_url2image c url remote uuid now fs res in
  (forall n, In n (h_fs h) ->
             In n fs \/
             (n_isdir n = false /\ n_mtime n = now /\
              exists response,
                remote = Ok response /\ n_data n = data response)) /\
  (forall n, In n fs ->
             (forall response contentType,
                 remote = Ok response ->
                 content_type response = Some contentType ->
                 n_path n <>
                 path_resolve storage (destFileName uuid now contentType)) ->
             In n (h_fs h)).
Proof.
  cbn zeta. unfold put_url2image.
  destruct (denied ADMIN_USER ADMIN_PASS hmac key c); [split; auto|].
  destruct url as [|u|l|]; try (split; now auto).
  destruct (negb (truthy (QString u))); [split; auto|].
  destruct remote as [response|e]; [|split; auto].
  destruct (content_type response) as [contentType|] eqn:Ect;
    [|split; auto].
  destruct (negb (startsWith contentType (lit "image"))); [split; auto|].
  cbn [respond h_fs]. unfold pipe_to_file.
  destruct (is_directory fs _ && negb (is_directory fs _)); [|split; auto].
  split.
  - intros n Hn. apply in_app_or in Hn as [Hn|[<-|[]]].
    + left. now apply in_remove in Hn.
    + right. cbn. repeat split. now exists response.
  - intros n Hn Hother. apply in_or_app. left. apply in_remove.
    split; [exact Hn|]. now apply (Hother response contentType).
Qed.

End Invariants.

Lemma operations_keep_well_formed_witness :
  wf_fs (h_fs (delete_delete app_dir sample_user sample_pass sample_hmac
                             sample_key admin (QString (lit "a.png"))
                             fs_one fresh_res)) = true.
Proof.
  destruct (operations_keep_well_formed
              app_dir sample_baseurl sample_user sample_pass sample_hmac
              sample_key admin (QString (lit "a.png")) QUndefined
              (Err AxiosError) sample_uuid sample_now fs_one fresh_res)
    as [[H _] _].
  - reflexivity.
  - reflexivity.
  - unfold unique_paths.
    apply (NoDup_count_occ' (list_eq_dec (list_eq_dec N.eq_dec))).
    intros p Hp. vm_compute in Hp.
    repeat (destruct Hp as [<-|Hp]; [vm_compute; reflexivity|]).
    contradiction.
  - exact H.
Defined.

(* ================================================================== *)
(** * Fetching, then listing *)
(* ================================================================== *)

Lemma lookup_app (fs1 fs2 : FS) (p : path) :
  lookup (fs1 ++ fs2) p =
  match lookup fs1 p with
  | Some n => Some n
  | None => lookup fs2 p
  end.
Proof.
  unfold lookup. induction fs1 as [|n fs1 IH]; cbn [app find];
    [reflexivity|].
  destruct (path_eqb (n_path n) p); [reflexivity | exact IH].
Qed.

Lemma lookup_remove_other (fs : FS) (p q : path) :
  q <> p -> lookup (remove fs p) q = lookup fs q.
Proof.
  intro Hne. unfold lookup, remove.
  induction fs as [|n fs IH]; [reflexivity|]. cbn [filter find].
  destruct (path_eqb (n_path n) p) eqn:Ep; cbn [negb].
  - apply path_eqb_eq in Ep.
    destruct (path_eqb (n_path n) q) eqn:Eq; [|exact IH].
    apply path_eqb_eq in Eq. congruence.
  - cbn [find]. destruct (path_eqb (n_path n) q); [reflexivity | exact IH].
Qed.

(** The file system after a file has been written at [p]. *)
Lemma lookup_written (fs : FS) (p q : path) (n : node) :
  n_path n = p ->
  lookup (remove fs p ++ [n]) q =
  if path_eqb p q then Some n else lookup fs q.
Proof.
  intro Hn. rewrite lookup_app.
  destruct (path_eqb p q) eqn:E.
  - apply path_eqb_eq in E. subst q. rewrite lookup_remove.
    unfold lookup. cbn [find]. now rewrite Hn, path_eqb_refl.
  - assert (Hne : q <> p)
      by (intro Eq; subst q; now rewrite path_eqb_refl in E).
    rewrite lookup_remove_other by exact Hne.
    destruct (lookup fs q); [reflexivity|].
    unfold lookup. cbn [find]. now rewrite Hn, E.
Qed.

Lemma sorted_head_max {A : Type} (key : A -> Z) (x : A) (l : list A) :
  StronglySorted (fun a b => key a >= key b) (x :: l) ->
  forall y, In y (x :: l) -> key x >= key y.
Proof.
  intros H y [<-|Hy]; [lia|].
  inversion H as [|? ? _ Hall]; subst.
  rewrite Forall_forall in Hall. now apply Hall.
Qed.

Section FetchThenList.

Variable __dirname : path.
Variable SITE_BASEURL ADMIN_USER ADMIN_PASS : jsstring.
Variable hmac : jsstring -> jsstring -> jsstring.
Variable key : jsstring.

Local Abbreviation storage := (storage_dir __dirname).
Local Abbreviation put_url2image :=
  (put_url2image __dirname SITE_BASEURL ADMIN_USER ADMIN_PASS hmac key).

(** X18. Fetching, then listing.  After an authenticated fetch whose
    remote content type is [image/subtype], [subtype] being one of the
    listed formats, the scan of the resulting file system succeeds and
    lists the new name together with every name listed before; and when
    the clock is ahead of every other file of the storage directory, the
    new name is the first of the listing. *)
Theorem fetched_image_is_listed
  (u : jsstring) (response : remote_response) (subtype uuid : jsstring)
  (now : Z) (fs : FS) (res : Res)
  (Hu : u <> [])
  (Hct : content_type response
         = Some (lit "image" ++ char_slash :: subtype))
  (Hsub : ~ In char_slash subtype)
  (Hlisted : In (lower subtype) ALLOWED_FORMATS_ALTERNATIVES)
  (Huuid : ~ In char_slash uuid)
  (Hplain : plain_path __dirname = true) (Hwf : wf_fs fs = true)
  (Hdir : is_directory fs storage = true)
  (Hnodir : is_directory fs
              (storage ++ [destFileName uuid now
                             (lit "image" ++ char_slash :: subtype)])
            = false) :
  let name := destFileName uuid now (lit "image" ++ char_slash :: subtype) in
  let h := put_url2image (Some (ADMIN_USER, ADMIN_PASS)) (QString u)
                         (Ok response) uuid now fs res in
  exists files,
    readSyncImageFiles __dirname (h_fs h) = Ok files /\
    In name files /\
    (forall before old,
        readSyncImageFiles __dirname fs = Ok before ->
        In old before -> In old files) /\
    ((forall other, In other (entries storage fs) -> other <> name ->
                    mtime_of __dirname fs other < now) ->
     hd [] files = name).
Proof.
  cbn zeta.
  set (name := destFileName uuid now (lit "image" ++ char_slash :: subtype))
    in *.
  assert (Hname : plain_name name = true) by now apply destFileName_plain.
  assert (Htest : ALLOWED_FORMATS_REGEX_test name = true).
  { apply ALLOWED_FORMATS_REGEX_test_spec.
    unfold name, destFileName.
    rewrite content_type_ext_subtype
      by (try assumption; intro H; vm_compute in H; intuition discriminate).
    exists (lower (uuid ++ lit "-" ++ moment_format now)), (lower subtype).
    split; [exact Hlisted|].
    transitivity (lower ((uuid ++ lit "-" ++ moment_format now)
                         ++ char_dot :: subtype)).
    - f_equal. now rewrite <- !app_assoc.
    - now rewrite lower_app. }
  set (target := storage ++ [name]).
  set (new := {| n_path := target; n_isdir := false; n_mtime := now;
                 n_data := data response |}).
  assert (Hfs : h_fs (put_url2image (Some (ADMIN_USER, ADMIN_PASS))
                                    (QString u) (Ok response) uuid now
                                    fs res)
                = remove fs target ++ [new]).
  { unfold put_url2image. rewrite admin_not_denied.
    assert (Htruthy : truthy (QString u) = true)
      by (destruct u; [contradiction | reflexivity]).
    rewrite Htruthy, Hct. cbn [negb].
    change (startsWith (lit "image" ++ char_slash :: subtype) (lit "image"))
      with true.
    cbn [negb respond h_fs]. fold name.
    rewrite path_resolve_plain by exact Hname. fold target.
    unfold pipe_to_file. unfold target at 1 2.
    rewrite removelast_last, Hdir. unfold jsstring in *.
    rewrite Hnodir. reflexivity. }
  rewrite Hfs. set (fs' := remove fs target ++ [new]).
  assert (Hlookup : forall q, lookup fs' q
                              = if path_eqb target q then Some new
                                else lookup fs q)
    by (intro q; now apply lookup_written).
  assert (Hne : path_eqb target storage = false).
  { destruct (path_eqb target storage) eqn:E; [|reflexivity].
    apply path_eqb_eq in E. apply (f_equal (@length _)) in E.
    unfold target in E. rewrite length_app in E. cbn in E. lia. }
  assert (Hwf' : wf_fs fs' = true).
  { unfold fs', wf_fs. rewrite forallb_app. cbn [forallb n_path new].
    rewrite andb_true_r. apply andb_true_iff. split.
    - now apply wf_fs_remove.
    - unfold target, plain_path. rewrite forallb_app. cbn [forallb].
      rewrite Hname. rewrite andb_true_r.
      now apply storage_dir_plain. }
  assert (Hdir' : is_directory fs' storage = true).
  { unfold is_directory in *. destruct storage eqn:Es; [reflexivity|].
    rewrite <- Es in *. now rewrite Hlookup, Hne. }
  assert (Hentry : forall other,
             In other (entries storage fs') <->
             other = name \/ In other (entries storage fs)).
  { intro other. rewrite !lookup_entry, Hlookup.
    destruct (path_eqb target (storage ++ [other])) eqn:E.
    - apply path_eqb_eq in E. unfold target in E.
      apply app_inj_tail in E as [_ E]. split; [now left | now exists new].
    - split; [now right|]. intros [->|H]; [|exact H].
      unfold target in E. now rewrite path_eqb_refl in E. }
  assert (Hmtime : forall other,
             plain_name other = true ->
             mtime_of __dirname fs' other
             = if str_eqb other name then now
               else mtime_of __dirname fs other).
  { intros other Hother. unfold mtime_of, statSync.
    rewrite path_join_plain, Hlookup by exact Hother.
    destruct (str_eqb other name) eqn:E.
    - apply str_eqb_eq in E. subst other. unfold target.
      now rewrite path_eqb_refl.
    - destruct (path_eqb target (storage ++ [other])) eqn:E'; [|reflexivity].
      apply path_eqb_eq in E'. unfold target in E'.
      apply app_inj_tail in E' as [_ E']. subst other.
      now rewrite str_eqb_refl in E. }
  eexists. split; [now apply readSyncImageFiles_eq|].
  set (listing := filter ALLOWED_FORMATS_REGEX_test (entries storage fs')).
  assert (Hin : In name (sort (descending (mtime_of __dirname fs')) listing)).
  { eapply Permutation_in; [apply Permutation_sym, sort_perm|].
    apply filter_In. split; [|exact Htest]. apply Hentry. now left. }
  split; [exact Hin|]. split.
  - intros before old Hbefore Hold.
    rewrite readSyncImageFiles_eq in Hbefore by assumption.
    injection Hbefore as <-.
    eapply Permutation_in in Hold; [|apply sort_perm].
    apply filter_In in Hold as [Hold Hf].
    eapply Permutation_in; [apply Permutation_sym, sort_perm|].
    apply filter_In. split; [|exact Hf]. apply Hentry. now right.
  - intro Hnewer.
    pose proof (sort_sorted (mtime_of __dirname fs') listing) as Hsorted.
    destruct (sort (descending (mtime_of __dirname fs')) listing)
      as [|x rest] eqn:Es; [contradiction|].
    cbn [hd]. destruct (str_eqb x name) eqn:Ex;
      [now apply str_eqb_eq in Ex|].
    exfalso.
    pose proof (sorted_head_max _ x rest Hsorted name Hin) as Hmax.
    assert (Hx : In x (entries storage fs')).
    { assert (Hx : In x (sort (descending (mtime_of __dirname fs')) listing))
        by (rewrite Es; now left).
      eapply Permutation_in in Hx; [|apply sort_perm].
      now apply filter_In in Hx. }
    pose proof (entries_plain _ _ _ Hwf' Hx) as Hxplain.
    rewrite (Hmtime x Hxplain), (Hmtime name Hname), Ex, str_eqb_refl
      in Hmax.
    apply str_eqb_neq in Ex.
    apply Hentry in Hx as [Hx|Hx]; [contradiction|].
    specialize (Hnewer x Hx Ex). lia.
Qed.

End FetchThenList.

Lemma fetched_image_is_listed_witness :
  exists files,
    readSyncImageFiles app_dir
      (h_fs (put_url2image app_dir sample_baseurl sample_user sample_pass
                           sample_hmac sample_key admin
                           (QString (lit "http://example.com/cat.png"))
                           (Ok {| content_type :=
                                    Some (lit "image" ++ char_slash
                                              :: lit "png");
                                  data := [137%N] |})
                           sample_uuid sample_now fs_one fresh_res))
    = Ok files /\
    hd [] files
    = destFileName sample_uuid sample_now
                   (lit "image" ++ char_slash :: lit "png").
Proof.
  destruct (fetched_image_is_listed
              app_dir sample_baseurl sample_user sample_pass sample_hmac
              sample_key (lit "http://example.com/cat.png")
              {| content_type := Some (lit "image" ++ char_slash
                                           :: lit "png");
                 data := [137%N] |}
              (lit "png") sample_uuid sample_now fs_one fresh_res)
    as (files & Hscan & _ & _ & Hhead).
  - discriminate.
  - reflexivity.
  - apply no_slash_check. vm_compute. reflexivity.
  - vm_compute. tauto.
  - apply no_slash_check. vm_compute. reflexivity.
  - reflexivity.
  - reflexivity.
  - reflexivity.
  - vm_compute. reflexivity.
  - exists files. split; [exact Hscan|]. apply Hhead.
    intros other Hother Hne. vm_compute in Hother.
    destruct Hother as [<-|[]]. vm_compute. reflexivity.
Defined.

(* ================================================================== *)
(** * The single-image view *)
(* ================================================================== *)

(** X19. The single-image view answers 415 for a name that does not pass
    [ALLOWED_FORMATS_REGEX], before the storage directory is read and
    therefore even when it cannot be read.  For a name that passes, it
    renders the page with the provider of the first page of the listing
    (index 1, the first twenty files, no [prev], [next] = 2 exactly when
    there are more than twenty files), whether or not a file of that name
    is stored. *)
Theorem get_image_outcomes (dirname : path) (fileName : jsstring) (fs : FS)
  (Hname : fileName <> []) :
  (ALLOWED_FORMATS_REGEX_test fileName = false ->
   get_image dirname fileName fs =
   Ok (Refused 415 (BJson [(lit "error", lit "Unsupported Media Type")]))) /\
  (ALLOWED_FORMATS_REGEX_test fileName = true ->
   forall scanned_files,
     readSyncImageFiles dirname fs = Ok scanned_files ->
     exists provider,
       get_image dirname fileName fs
       = Ok (Rendered 200 (ImagePage fileName provider)) /\
       provider_files provider = scanned_files /\
       index (pagination provider) = Num 1 /\
       files (pagination provider) = firstn 20 scanned_files /\
       prev (pagination provider) = None /\
       next (pagination provider)
       = (if 20 <? Z.of_nat (length scanned_files)
          then Some (Num 2) else None)).
Proof.
  destruct fileName as [|c t]; [contradiction|]. split.
  - intro H. unfold get_image. now rewrite H.
  - intros H scanned_files Hscan. unfold get_image. rewrite H, Hscan.
    cbn [negb bind]. eexists. split; [reflexivity|].
    cbn [make_provider provider_files pagination index files prev next].
    split; [reflexivity|]. split; [reflexivity|]. split; [|split].
    + apply (paginate_nat scanned_files 20 0).
    + cbn [num_sub]. change (1 - 1) with 0.
      now rewrite paginate_page_zero.
    + rewrite nonempty_length. cbn [num_add]. unfold PAGE_SIZE.
      rewrite (paginate_length_from_1 scanned_files 20 (1 + 1)) by lia.
      destruct (20 <? Z.of_nat (length scanned_files)) eqn:E;
        [apply Z.ltb_lt in E|apply Z.ltb_ge in E].
      * replace (0 <? _) with true by (symmetry; apply Z.ltb_lt; lia).
        reflexivity.
      * replace (0 <? _) with false by (symmetry; apply Z.ltb_ge; lia).
        reflexivity.
Qed.

Lemma get_image_outcomes_witness :
  get_image app_dir (lit "notes.txt") [] =
  Ok (Refused 415 (BJson [(lit "error", lit "Unsupported Media Type")])) /\
  exists provider,
    get_image app_dir (lit "missing.png") fs_one =
    Ok (Rendered 200 (ImagePage (lit "missing.png") provider)).
Proof.
  split.
  - apply (get_image_outcomes app_dir (lit "notes.txt") []);
      [discriminate | reflexivity].
  - destruct (get_image_outcomes app_dir (lit "missing.png") fs_one)
      as [_ H]; [discriminate|].
    destruct (H eq_refl [lit "a.png"]) as (provider & Hp & _);
      [vm_compute; reflexivity|].
    now exists provider.
Defined.

Lemma delete_delete_plain_witness :
  response_status
    (delete_delete app_dir sample_user sample_pass sample_hmac sample_key
                   admin (QString (lit "gone.png")) fs_one fresh_res)
  = Some 404 /\
  ~ In (lit "a.png")
       (entries (storage_dir app_dir)
          (h_fs (delete_delete app_dir sample_user sample_pass sample_hmac
                               sample_key admin (QString (lit "a.png"))
                               fs_one fresh_res))).
Proof.
  split.
  - destruct (delete_delete_plain app_dir sample_user sample_pass
                sample_hmac sample_key (lit "gone.png") fs_one fresh_res)
      as [H _]; [reflexivity | reflexivity|].
    destruct H as [H _]; [|exact H].
    intro Hin. vm_compute in Hin. destruct Hin as [Hin|[]].
    discriminate Hin.
  - destruct (delete_delete_plain app_dir sample_user sample_pass
                sample_hmac sample_key (lit "a.png") fs_one fresh_res)
      as [_ H]; [reflexivity | reflexivity|].
    destruct (H (stored "a.png" 5000)) as (_ & Hgone & _);
      [vm_compute; reflexivity | reflexivity | exact Hgone].
Defined.

(* ================================================================== *)
(** * The reach of the delete operation *)
(* ================================================================== *)

Lemma split_join (sep : N) (segs : list jsstring) :
  segs <> [] -> (forall seg, In seg segs -> ~ In sep seg) ->
  split sep (join sep segs) = segs.
Proof.
  induction segs as [|seg segs IH]; intros Hne Hsegs; [contradiction|].
  destruct segs as [|seg' segs].
  - cbn [join]. apply split_no_sep. apply Hsegs. now left.
  - change (join sep (seg :: seg' :: segs))
      with (seg ++ sep :: join sep (seg' :: segs)).
    rewrite split_app_sep by (apply Hsegs; now left).
    f_equal. apply IH; [discriminate|].
    intros s Hs. apply Hsegs. now right.
Qed.

Lemma normalize_plain_segs (segs : list jsstring) :
  forall stack,
    forallb plain_name segs = true ->
    normalize stack segs = rev stack ++ segs.
Proof.
  induction segs as [|seg segs IH]; intros stack H.
  - cbn [normalize]. now rewrite app_nil_r.
  - cbn [forallb] in H. apply andb_true_iff in H as [Hseg H].
    cbn [normalize]. unfold plain_name in Hseg.
    rewrite !andb_true_iff, !negb_true_iff in Hseg.
    destruct Hseg as [[[H0 H1] H2] _]. rewrite H0, H1, H2.
    rewrite IH by exact H. cbn [rev]. now rewrite <- app_assoc.
Qed.

(** An absolute name resolves to the path it spells, whatever the base. *)
Lemma path_resolve_absolute (base p : path) :
  p <> [] -> plain_path p = true ->
  path_resolve base (char_slash :: join char_slash p) = p.
Proof.
  intros Hne Hp. unfold path_resolve.
  change (char_slash :: join char_slash p)
    with ([] ++ char_slash :: join char_slash p).
  rewrite split_app_sep by (intros []).
  rewrite split_join.
  - cbn [normalize str_eqb list_eqb]. now apply normalize_plain_segs.
  - exact Hne.
  - intros seg Hseg. apply plain_name_no_slash.
    unfold plain_path in Hp. rewrite forallb_forall in Hp. now apply Hp.
Qed.

Section Reach.

Variable __dirname : path.
Variable ADMIN_USER ADMIN_PASS : jsstring.
Variable hmac : jsstring -> jsstring -> jsstring.
Variable key : jsstring.

Local Abbreviation delete_delete :=
  (delete_delete __dirname ADMIN_USER ADMIN_PASS hmac key).

(** X20. The delete operation reaches every file of the file system: for
    any file at a normalised path [p], inside the storage directory or
    not, the authenticated request whose [fileName] is the absolute path,
    a slash followed by the segments of [p] joined by slashes, is
    answered 204 and removes the file. *)
Theorem delete_reaches_any_file (p : path) (n : node) (fs : FS) (res : Res)
  (Hne : p <> []) (Hp : plain_path p = true)
  (Hn : lookup fs p = Some n) (Hfile : n_isdir n = false)
  (Hres : sent res = None) :
  let h := delete_delete (Some (ADMIN_USER, ADMIN_PASS))
                         (QString (char_slash :: join char_slash p))
                         fs res in
  response_status h = Some 204 /\
  h_fs h = remove fs p /\
  existsSync (h_fs h) p = false.
Proof.
  cbn zeta. unfold delete_delete. rewrite admin_not_denied.
  cbn [truthy negb]. rewrite path_resolve_absolute by assumption.
  assert (Hex : existsSync fs p = true).
  { unfold existsSync. destruct p; [reflexivity | now rewrite Hn]. }
  rewrite Hex. cbn [negb]. unfold unlinkSync. rewrite Hn, Hfile.
  split; [now apply status_of_end|]. split; [reflexivity|].
  cbn [respond h_fs]. unfold existsSync.
  destruct p; [contradiction|]. now rewrite lookup_remove.
Qed.

End Reach.

Lemma delete_reaches_any_file_witness :
  h_fs (delete_delete app_dir sample_user sample_pass sample_hmac sample_key
                      admin (QString (lit "/app/app.js")) fs_one fresh_res)
  = remove fs_one [lit "app"; lit "app.js"].
Proof.
  destruct (delete_reaches_any_file
              app_dir sample_user sample_pass sample_hmac sample_key
              [lit "app"; lit "app.js"]
              (file_node (app_dir ++ [lit "app.js"]) 1000)
              fs_one fresh_res)
    as (_ & H & _).
  - discriminate.
  - reflexivity.
  - reflexivity.
  - reflexivity.
  - reflexivity.
  - exact H.
Defined.
